(** * ingress-doperator: merge, ownership, reconcile cache and re-enabler

    A shallow embedding of the Go sources

    - [internal/utils/resource.go]        (ownership guard)
    - [internal/translator/gateway_utils.go] (annotation and Gateway merge)
    - the reconcile cache of package [utils] (sharded ConfigMaps)
    - [cmd/reenabler/main.go]             (disable/restore and deletion gate)

    Go strings are byte strings: they are modelled by [string] (a list of
    [ascii] bytes).  Go maps are stdpp [gmap]s; a nil map reads like an
    empty one, so both are the empty [gmap].  Where Go iterates over a map
    and the result depends on the iteration order, the operation is a
    relation that admits every order. *)

From Stdlib Require Import ZArith Lia Ascii String.
From stdpp Require Import base gmap strings list list_numbers sets.

Open Scope Z_scope.

(* ================================================================== *)
(** * Go runtime pieces: errors, strings, integer formatting          *)
(* ================================================================== *)

(** Errors returned by the cluster client. [ErrNotFound] is what
    [apierrors.IsNotFound] recognises; [ErrPanic] is a Go runtime panic. *)
Inductive error :=
| ErrNotFound
| ErrOther (msg : string)
| ErrPanic.

Inductive result (A : Type) :=
| Ok (a : A)
| Err (e : error).
Arguments Ok {A} a.
Arguments Err {A} e.

Global Instance result_ret : MRet result := fun A a => Ok a.
Global Instance result_bind : MBind result := fun A B k r =>
  match r with Ok a => k a | Err e => Err e end.

Definition IsNotFound (e : error) : bool :=
  match e with ErrNotFound => true | _ => false end.

(** Go's [m[k]] on a [map[string]string]: the zero value "" when absent. *)
Definition ann_get (m : gmap string string) (k : string) : string :=
  default ""%string (m !! k).

(** [asciiSpace] of package [strings]: \t \n \v \f \r and space. *)
Definition is_space (c : ascii) : bool :=
  match nat_of_ascii c with
  | 9%nat | 10%nat | 11%nat | 12%nat | 13%nat | 32%nat => true
  | _ => false
  end.

Fixpoint trim_left (s : string) : string :=
  match s with
  | EmptyString => EmptyString
  | String c r => if is_space c then trim_left r else s
  end.

Fixpoint trim_right (s : string) : string :=
  match s with
  | EmptyString => EmptyString
  | String c r =>
      let r' := trim_right r in
      if is_space c && String.eqb r' EmptyString then EmptyString
      else String c r'
  end.

(** [strings.TrimSpace] (on ASCII input). *)
Definition TrimSpace (s : string) : string := trim_right (trim_left s).

(** [strings.Split(s, sep)] for a one-byte separator: [Split("", sep)]
    is [[""]], never the empty slice. *)
Fixpoint Split (s : string) (sep : ascii) : list string :=
  match s with
  | EmptyString => [EmptyString]
  | String c r =>
      if Ascii.eqb c sep then EmptyString :: Split r sep
      else match Split r sep with
           | h :: t => String c h :: t
           | [] => [String c EmptyString]
           end
  end.

(** [strings.Join(elems, sep)]. *)
Fixpoint Join (elems : list string) (sep : string) : string :=
  match elems with
  | [] => EmptyString
  | [x] => x
  | x :: r => x ++ sep ++ Join r sep
  end.

(** [strings.HasPrefix]. *)
Definition HasPrefix (s prefix : string) : bool := String.prefix prefix s.

Fixpoint has_char (c : ascii) (s : string) : bool :=
  match s with
  | EmptyString => false
  | String x r => Ascii.eqb x c || has_char c r
  end.

(** ** Decimal formatting ([%d]) and [strconv.ParseInt(s, 10, 64)] *)

Definition int64_range (z : Z) : Prop := -2^63 <= z <= 2^63 - 1.
Definition int64_rangeb (z : Z) : bool := (-2^63 <=? z) && (z <=? 2^63 - 1).

Definition digit_char (d : Z) : ascii := ascii_of_nat (48 + Z.to_nat d).

(** Digits of [n >= 0], most significant first, prepended to [acc]; the
    fuel 20 covers every value below 10^20, hence every int64. *)
Fixpoint dec_go (fuel : nat) (n : Z) (acc : string) : string :=
  match fuel with
  | O => acc
  | S k =>
      let acc' := String (digit_char (n mod 10)) acc in
      if n <? 10 then acc' else dec_go k (n / 10) acc'
  end.

(** [fmt.Sprintf("%d", z)]. *)
Definition itoa (z : Z) : string :=
  if z <? 0 then String "-"%char (dec_go 20 (- z) EmptyString)
  else dec_go 20 z EmptyString.

Definition digit_of (c : ascii) : option Z :=
  let n := nat_of_ascii c in
  if (48 <=? n)%nat && (n <=? 57)%nat then Some (Z.of_nat n - 48) else None.

Fixpoint digits_from (acc : Z) (s : string) : option Z :=
  match s with
  | EmptyString => Some acc
  | String c r =>
      match digit_of c with
      | Some d => digits_from (acc * 10 + d) r
      | None => None
      end
  end.

(** [strconv.ParseUint(s, 10, _)] without the range check: an empty
    string or a non-digit byte is a syntax error. *)
Definition parse_digits (s : string) : option Z :=
  match s with
  | EmptyString => None
  | _ => digits_from 0 s
  end.

(** [strconv.ParseInt(s, 10, 64)]: optional sign, digits, int64 range. *)
Definition ParseInt (s : string) : option Z :=
  let '(neg, body) :=
    match s with
    | String c r =>
        if Ascii.eqb c "-"%char then (true, r)
        else if Ascii.eqb c "+"%char then (false, r)
        else (false, s)
    | EmptyString => (false, s)
    end in
  match parse_digits body with
  | None => None
  | Some v =>
      let z := if neg then - v else v in
      if int64_rangeb z then Some z else None
  end.

Fixpoint count_char (c : ascii) (s : string) : nat :=
  match s with
  | EmptyString => 0
  | String x r => (if Ascii.eqb x c then 1 else 0) + count_char c r
  end.

Fixpoint all_digits (s : string) : bool :=
  match s with
  | EmptyString => true
  | String c r => bool_decide (is_Some (digit_of c)) && all_digits r
  end.

(* ================================================================== *)
(** * Reconcile cache entries (package utils)                         *)
(* ================================================================== *)

Record ReconcileCacheEntry := {
  ResourceVersion : string;
  UpdatedAtUnix : Z  (* int64 *)
}.

(** [formatReconcileCacheEntry]: [fmt.Sprintf("%s|%d", ...)]. *)
Definition formatReconcileCacheEntry (entry : ReconcileCacheEntry) : string :=
  ResourceVersion entry ++ String "|"%char (itoa (UpdatedAtUnix entry)).

(** [parseReconcileCacheEntry]: [(entry, ok)] is [Some entry] or [None]. *)
Definition parseReconcileCacheEntry (raw : string) : option ReconcileCacheEntry :=
  match Split raw "|"%char with
  | [p0; p1] =>
      match ParseInt p1 with
      | Some ts => Some {| ResourceVersion := p0; UpdatedAtUnix := ts |}
      | None => None
      end
  | _ => None
  end.

(** ** Sharded save and load *)

Definition ReconcileCacheShardCount : Z := 16.
(** [ReconcileCacheTTL = 24 * time.Hour], in seconds. *)
Definition ReconcileCacheTTL : Z := 24 * 3600.

(** The ConfigMaps of the cache namespace, by name ([Data] only; a nil
    [Data] is the empty map).  A [Get] of a name in [cm_broken] fails with
    an error other than not-found; a [Create] or [Update] of a name in
    [cm_readonly] fails, and of any other name succeeds. *)
Record ConfigMapStore := {
  cm_data : gmap string (gmap string string);
  cm_broken : gset string;
  cm_readonly : gset string
}.

Definition cm_get (st : ConfigMapStore) (name : string) : result (gmap string string) :=
  if bool_decide (name ∈ cm_broken st) then Err (ErrOther "get failed")
  else match cm_data st !! name with
       | Some d => Ok d
       | None => Err ErrNotFound
       end.

(** [Create] of a new ConfigMap or [Update] of an existing one. *)
Definition cm_put (st : ConfigMapStore) (name : string) (d : gmap string string)
  : result ConfigMapStore :=
  if bool_decide (name ∈ cm_readonly st) then Err (ErrOther "write failed")
  else Ok {| cm_data := <[name := d]> (cm_data st); cm_broken := cm_broken st;
             cm_readonly := cm_readonly st |}.

(** [fnv32a]: 32-bit FNV-1a over the bytes of [s], with uint32 wrap-around. *)
Definition fnv32a (s : string) : Z :=
  fold_left (fun hash c => (Z.lxor hash (Z.of_nat (nat_of_ascii c)) * 16777619) mod 2^32)
    (list_ascii_of_string s) 2166136261.

(** [reconcileCacheShardForKey]; [uint32(shardCount)] keeps the low 32
    bits of the (64-bit) int, and [h % 0] is a division-by-zero panic,
    modelled by [None]. *)
Definition reconcileCacheShardForKey (key : string) (shardCount : Z) : option Z :=
  if shardCount <=? 1 then Some 0
  else let m := shardCount mod 2^32 in
       if m =? 0 then None else Some (fnv32a key mod m).

(** [if shardCount <= 0 { shardCount = 1 }]. *)
Definition normalize_shard_count (shardCount : Z) : Z :=
  if shardCount <=? 0 then 1 else shardCount.

(** [fmt.Sprintf("%s-%d", baseName, shard)]. *)
Definition shard_name (baseName : string) (shard : Z) : string :=
  baseName ++ String "-"%char (itoa shard).

(** The first loop of [SaveReconcileCacheSharded]: partition by shard. *)
Definition partition_shards (shardCount : Z) (data : gmap string ReconcileCacheEntry)
  : result (gmap Z (gmap string string)) :=
  map_fold (fun key value acc =>
      shards ← acc;
      shard ← match reconcileCacheShardForKey key shardCount with
              | Some s => Ok s
              | None => Err ErrPanic
              end;
      Ok (<[shard := <[key := formatReconcileCacheEntry value]> (shards !!! shard)]> shards))
    (Ok ∅) data.

(** The second loop: get, then create or update each shard's ConfigMap. *)
Fixpoint write_shards (st : ConfigMapStore) (baseName : string)
    (shards : gmap Z (gmap string string)) (idx : list Z) : result ConfigMapStore :=
  match idx with
  | [] => Ok st
  | shard :: rest =>
      let shardData := shards !!! shard in
      let name := shard_name baseName shard in
      match cm_get st name with
      | Ok _ =>
          match cm_put st name shardData with
          | Err _ => Err (ErrOther "failed to update reconcile cache configmap")
          | Ok st' => write_shards st' baseName shards rest
          end
      | Err ErrNotFound =>
          match cm_put st name shardData with
          | Err _ => Err (ErrOther "failed to create reconcile cache configmap")
          | Ok st' => write_shards st' baseName shards rest
          end
      | Err e => Err e
      end
  end.

Definition SaveReconcileCacheSharded (st : ConfigMapStore) (baseName : string)
    (shardCount : Z) (data : gmap string ReconcileCacheEntry) : result ConfigMapStore :=
  let shardCount := normalize_shard_count shardCount in
  shards ← partition_shards shardCount data;
  write_shards st baseName shards (seqZ 0 shardCount).

(** The body of the inner loop of [LoadReconcileCacheSharded]: an entry
    that does not parse, or is older than [cutoff], is skipped. *)
Definition load_entry (cutoff : Z) (raw : string) : option ReconcileCacheEntry :=
  match parseReconcileCacheEntry raw with
  | None => None
  | Some entry => if UpdatedAtUnix entry <? cutoff then None else Some entry
  end.

Definition load_shard_data (cutoff : Z) (d : gmap string string)
    (out : gmap string ReconcileCacheEntry) : gmap string ReconcileCacheEntry :=
  map_fold (fun key value out =>
      match load_entry cutoff value with
      | None => out
      | Some entry => <[key := entry]> out
      end) out d.

Fixpoint load_shards (st : ConfigMapStore) (baseName : string) (cutoff : Z)
    (out : gmap string ReconcileCacheEntry) (idx : list Z)
    : result (gmap string ReconcileCacheEntry) :=
  match idx with
  | [] => Ok out
  | shard :: rest =>
      match cm_get st (shard_name baseName shard) with
      | Err ErrNotFound => load_shards st baseName cutoff out rest
      | Err e => Err e
      | Ok d => load_shards st baseName cutoff (load_shard_data cutoff d out) rest
      end
  end.

(** [LoadReconcileCacheSharded]; [now] is [time.Now().Unix()]. *)
Definition LoadReconcileCacheSharded (st : ConfigMapStore) (baseName : string)
    (shardCount : Z) (now : Z) : result (gmap string ReconcileCacheEntry) :=
  let shardCount := normalize_shard_count shardCount in
  let cutoff := now - ReconcileCacheTTL in
  load_shards st baseName cutoff ∅ (seqZ 0 shardCount).

(** [strings.ReplaceAll(s, old, new)] for a one-byte [old] (the only use
    here): every occurrence of the byte is replaced. *)
Fixpoint ReplaceAll (s : string) (old : ascii) (new : string) : string :=
  match s with
  | EmptyString => EmptyString
  | String c r =>
      if Ascii.eqb c old then new ++ ReplaceAll r old new
      else String c (ReplaceAll r old new)
  end.

(** [ReconcileCacheKey]. *)
Definition ReconcileCacheKey (id : string) : string :=
  let key := TrimSpace id in
  let key := ReplaceAll key "/"%char "__" in
  if String.eqb key "" then "" else key.

(* ================================================================== *)
(** * Ownership guard (internal/utils/resource.go)                     *)
(* ================================================================== *)

Definition ManagedByAnnotation : string := "ingress-operator.fiction.si/managed-by".
Definition ManagedByValue : string := "ingress-controller".

(** The part of a [client.Object] the guard reads. *)
Record Object := { obj_annotations : gmap string string }.

(** [IsManagedByUs]. *)
Definition IsManagedByUs (obj : Object) : bool :=
  String.eqb (ann_get (obj_annotations obj) ManagedByAnnotation) ManagedByValue.

(** [CanUpdateResource]: [got] is the outcome of [c.Get(ctx, name, obj)];
    the Go pair [(bool, error)] has [None] for a nil error. *)
Definition CanUpdateResource (got : result Object) : bool * option error :=
  match got with
  | Err e => if IsNotFound e then (true, None) else (false, Some e)
  | Ok obj => if IsManagedByUs obj then (true, None) else (false, None)
  end.

(* ================================================================== *)
(** * Annotation merge (internal/translator/gateway_utils.go)          *)
(* ================================================================== *)

(** One pass of the order-preserving loop of [MergeAnnotationValues]:
    append each trimmed, non-empty, not yet seen value. *)
Definition collect_values (vals : list string) (acc : list string * gset string)
  : list string * gset string :=
  fold_left (fun '(values, seenInResult) val =>
      let trimmed := TrimSpace val in
      if negb (String.eqb trimmed "") && negb (bool_decide (trimmed ∈ seenInResult))
      then (values ++ [trimmed], {[trimmed]} ∪ seenInResult)
      else (values, seenInResult)) vals acc.

(** [MergeAnnotationValues].  The Go function first fills a [valuesMap]
    that it never reads; only the two order-preserving loops decide the
    result. *)
Definition MergeAnnotationValues (existing desired : string) : string :=
  if String.eqb existing "" then desired
  else if String.eqb desired "" then existing
  else
    let acc := collect_values (Split existing ","%char) ([], ∅) in
    let '(values, _) := collect_values (Split desired ","%char) acc in
    Join values ",".

Definition add_trimmed (valuesMap : gset string) (val : string) : gset string :=
  let trimmed := TrimSpace val in
  if String.eqb trimmed "" then valuesMap else {[trimmed]} ∪ valuesMap.

(** The [valuesMap] of [MergeCertificateMismatchAnnotation]. *)
Definition cert_values (existing desired : string) : gset string :=
  fold_left add_trimmed (Split desired ";"%char)
    (fold_left add_trimmed (Split existing ";"%char) ∅).

(** The ordered, de-duplicated, trimmed non-empty comma tokens of a
    value: what the first order-preserving loop of
    [MergeAnnotationValues] collects. *)
Definition comma_tokens (a : string) : list string :=
  fst (collect_values (Split a ","%char) ([], ∅)).

(** The trimmed non-empty [';']-separated records of a value. *)
Definition cert_set (a : string) : gset string :=
  fold_left add_trimmed (Split a ";"%char) ∅.

(** [MergeCertificateMismatchAnnotation existing desired] may return
    [out]: the values are joined in Go's (unspecified) map iteration
    order, so every arrangement of [valuesMap] is a possible result. *)
Definition MergeCertificateMismatchAnnotation (existing desired out : string) : Prop :=
  if String.eqb existing "" then out = desired
  else if String.eqb desired "" then out = existing
  else exists values, values ≡ₚ elements (cert_values existing desired) /\
                      out = Join values "; ".

(** [RemoveCertMismatchEntries]; [hostnameMappings] is a Go map, given by
    its entries (the result does not depend on their order). *)
Definition RemoveCertMismatchEntries (certMismatch : string)
    (hostnameMappings : gmap string string) : string :=
  if String.eqb certMismatch "" then ""
  else
    let remainingEntries :=
      fold_left (fun remaining entry =>
          let trimmed := TrimSpace entry in
          if String.eqb trimmed "" then remaining
          else if existsb (fun '(original, transformed) =>
                             HasPrefix trimmed (original ++ "->" ++ transformed ++ ":"))
                          (map_to_list hostnameMappings)
          then remaining
          else remaining ++ [trimmed])
        (Split certMismatch ";"%char) [] in
    match remainingEntries with
    | [] => ""
    | _ => Join remainingEntries "; "
    end.

(* ================================================================== *)
(** * Gateway merge and listener removal                               *)
(* ================================================================== *)

Record Listener := {
  ln_name : string;          (* SectionName: the transformed hostname *)
  ln_hostname : option string;
  ln_port : Z;
  ln_protocol : string
}.

Record Gateway := {
  gw_annotations : gmap string string;
  gw_class : string;                        (* Spec.GatewayClassName *)
  gw_infra : option (gmap string string);   (* Spec.Infrastructure.Annotations *)
  gw_listeners : list Listener
}.

(** The parts of a networking/v1 Ingress read by this code.  A rule
    without a host has host [""]. *)
Record Ingress := {
  ing_namespace : string;
  ing_name : string;
  ing_class_name : option string;           (* Spec.IngressClassName *)
  ing_annotations : gmap string string;
  ing_rule_hosts : list string
}.

(** Constants of package translator that this code names. *)
Record TranslatorConsts := {
  MismatchedCertAnnotation : string;
  SourceAnnotation : string
}.

Definition doperator_prefix : string := "ingress-doperator.fiction.si/".

Section GatewayMerge.

Variable T : TranslatorConsts.

(** The body of the annotation loop of [MergeGatewaySpec] for key [k]:
    [out] is a possible new value of [existing.Annotations[k]]. *)
Definition merge_annotation (k existing v out : string) : Prop :=
  if String.eqb k (MismatchedCertAnnotation T) then
    MergeCertificateMismatchAnnotation existing v out
  else if String.eqb k (SourceAnnotation T) then out = MergeAnnotationValues existing v
  else if HasPrefix k doperator_prefix then out = v
  else out = MergeAnnotationValues existing v.

(** [existingListeners] after both loops: existing listeners by name, then
    desired ones overlaid. *)
Definition merged_listeners (existing desired : Gateway) : gmap string Listener :=
  fold_left (fun m l => <[ln_name l := l]> m) (gw_listeners desired)
    (fold_left (fun m l => <[ln_name l := l]> m) (gw_listeners existing) ∅).

(** [MergeGatewaySpec existing desired] may leave [existing] as [result]:
    the annotation loop, the class, the infrastructure annotations, and
    the listeners flattened from the map in any order. *)
Definition MergeGatewaySpec (existing desired result : Gateway) : Prop :=
  (forall k, gw_annotations desired !! k = None ->
             gw_annotations result !! k = gw_annotations existing !! k) /\
  (forall k v, gw_annotations desired !! k = Some v ->
     exists out, gw_annotations result !! k = Some out /\
                 merge_annotation k (ann_get (gw_annotations existing) k) v out) /\
  gw_class result = gw_class desired /\
  gw_infra result = match gw_infra desired with
                    | None => gw_infra existing
                    | Some d => Some (d ∪ default ∅ (gw_infra existing))
                    end /\
  gw_listeners result ≡ₚ (map_to_list (merged_listeners existing desired)).*2.

(** [RemoveIngressListeners]; [TransformHostname] is the translator's
    hostname transform. *)
Definition RemoveIngressListeners (TransformHostname : string -> string)
    (gateway : Gateway) (ingress : Ingress) : Gateway :=
  let hosts := filter (fun h => negb (String.eqb h "")) (ing_rule_hosts ingress) in
  let hostnamesToRemove : gset string := list_to_set (map TransformHostname hosts) in
  let originalToTransformed : gmap string string :=
    list_to_map (map (fun h => (h, TransformHostname h)) hosts) in
  let remainingListeners :=
    filter (fun l => negb (bool_decide (ln_name l ∈ hostnamesToRemove)))
      (gw_listeners gateway) in
  let annotations :=
    match gw_annotations gateway !! MismatchedCertAnnotation T with
    | Some certMismatch =>
        <[MismatchedCertAnnotation T :=
            RemoveCertMismatchEntries certMismatch originalToTransformed]>
          (gw_annotations gateway)
    | None => gw_annotations gateway
    end in
  {| gw_annotations := annotations; gw_class := gw_class gateway;
     gw_infra := gw_infra gateway; gw_listeners := remainingListeners |}.

End GatewayMerge.

(* ------------------------------------------------------------------ *)
(** ** ReferenceGrants (package utils, in the same source file)         *)
(* ------------------------------------------------------------------ *)

Section ReferenceGrants.

(** [gatewayv1beta1.ReferenceGrantSpec] is opaque here. *)
Variable ReferenceGrantSpec : Type.

(** A ReferenceGrant: its metadata (as far as [IsManagedByUs] reads it)
    and its spec. *)
Record ReferenceGrant := {
  rg_meta : Object;
  rg_spec : ReferenceGrantSpec
}.

(** [translator.ReferenceGrantName], [trans.CreateReferenceGrant],
    [trans.GetNamespacesWithTLS] and [len(ingress.Spec.TLS)]: defined
    outside this source. *)
Variable ReferenceGrantName : string.
Variable CreateReferenceGrant : string -> ReferenceGrant.
Variable GetNamespacesWithTLS : list Ingress -> list string.
Variable IngressTLSCount : Ingress -> nat.

(** The client, over a cluster state [GW]; a failed write leaves the
    state unchanged. *)
Variable GW : Type.

Record GrantClient := {
  GetGrant : GW -> string -> string -> result ReferenceGrant;   (* namespace, name *)
  CreateGrant : GW -> ReferenceGrant -> result GW;
  UpdateGrant : GW -> ReferenceGrant -> result GW;
  DeleteGrant : GW -> ReferenceGrant -> result GW;
  ListIngressesIn : GW -> string -> result (list Ingress)
}.

(** The writes issued and the [recordMetric] calls, in order. *)
Inductive GrantEvent :=
  | GCreate (g : ReferenceGrant)
  | GUpdate (g : ReferenceGrant)
  | GDelete (g : ReferenceGrant)
  | GMetric (operation namespace name : string).

Variable c : GrantClient.

(** A non-nil [recordMetric] is [true]. *)
Definition metric (recordMetric : bool) (operation namespace : string) : list GrantEvent :=
  if recordMetric then [GMetric operation namespace ReferenceGrantName] else [].

(** [ApplyReferenceGrant]: the returned error ([Ok tt] for nil), the final
    state and the events.  The [fmt.Errorf] wrappers keep their message
    only. *)
Definition ApplyReferenceGrant (w : GW) (ingressNamespace : string) (recordMetric : bool)
  : result unit * GW * list GrantEvent :=
  let refGrant := CreateReferenceGrant ingressNamespace in
  match GetGrant c w ingressNamespace ReferenceGrantName with
  | Err e =>
      if IsNotFound e then
        match CreateGrant c w refGrant with
        | Err _ => (Err (ErrOther "failed to create ReferenceGrant"), w, [GCreate refGrant])
        | Ok w' => (Ok tt, w', GCreate refGrant :: metric recordMetric "create" ingressNamespace)
        end
      else (Err e, w, [])
  | Ok existing =>
      if IsManagedByUs (rg_meta existing) then
        let existing := {| rg_meta := rg_meta existing; rg_spec := rg_spec refGrant |} in
        match UpdateGrant c w existing with
        | Err _ => (Err (ErrOther "failed to update ReferenceGrant"), w, [GUpdate existing])
        | Ok w' => (Ok tt, w', GUpdate existing :: metric recordMetric "update" ingressNamespace)
        end
      else (Ok tt, w, [])
  end.

(** The loop of [EnsureReferenceGrants]: stop at the first error. *)
Fixpoint apply_grants (w : GW) (namespaces : list string) (recordMetric : bool)
  : result unit * GW * list GrantEvent :=
  match namespaces with
  | [] => (Ok tt, w, [])
  | namespace :: rest =>
      match ApplyReferenceGrant w namespace recordMetric with
      | (Err e, w', ev) => (Err e, w', ev)
      | (Ok _, w', ev) =>
          let '(r, w'', ev') := apply_grants w' rest recordMetric in (r, w'', ev ++ ev')
      end
  end.

Definition EnsureReferenceGrants (w : GW) (ingresses : list Ingress) (recordMetric : bool)
  : result unit * GW * list GrantEvent :=
  apply_grants w (GetNamespacesWithTLS ingresses) recordMetric.

(** [CleanupReferenceGrantIfNeeded]. *)
Definition CleanupReferenceGrantIfNeeded (w : GW) (namespace : string)
  : result unit * GW * list GrantEvent :=
  match ListIngressesIn c w namespace with
  | Err _ => (Err (ErrOther "failed to list Ingresses"), w, [])
  | Ok items =>
      if existsb (fun ingress => Nat.ltb 0 (IngressTLSCount ingress)) items then (Ok tt, w, [])
      else
        match GetGrant c w namespace ReferenceGrantName with
        | Err e => if IsNotFound e then (Ok tt, w, []) else (Err e, w, [])
        | Ok refGrant =>
            if IsManagedByUs (rg_meta refGrant) then
              match DeleteGrant c w refGrant with
              | Err e =>
                  if IsNotFound e then (Ok tt, w, [GDelete refGrant])
                  else (Err (ErrOther "failed to delete ReferenceGrant"), w, [GDelete refGrant])
              | Ok w' => (Ok tt, w', [GDelete refGrant])
              end
            else (Ok tt, w, [])
        end
  end.

End ReferenceGrants.

(* ================================================================== *)
(** * Re-enabler (cmd/reenabler/main.go)                               *)
(* ================================================================== *)

(** Constants of package controller used by the re-enabler.  They are
    defined outside this source; the development is generic in them. *)
Record ControllerConsts := {
  IngressDisabledAnnotation : string;
  IngressClassAnnotation : string;
  DisabledIngressClassName : string;
  IngressDisabledReasonNormal : string;
  IngressDisabledReasonExternalDNS : string;
  OriginalIngressClassNameAnnotation : string;
  OriginalIngressClassAnnotation : string;
  ExternalDNSHostnameAnnotation : string;
  OriginalExternalDNSHostname : string;
  ExternalDNSIngressHostnameSource : string;
  OriginalExternalDNSIngressHostnameSource : string
}.

(** The eight annotation keys are pairwise distinct and so are the two
    disable reasons. *)
Definition consts_wf (K : ControllerConsts) : Prop :=
  NoDup [IngressDisabledAnnotation K; IngressClassAnnotation K;
         OriginalIngressClassNameAnnotation K; OriginalIngressClassAnnotation K;
         ExternalDNSHostnameAnnotation K; OriginalExternalDNSHostname K;
         ExternalDNSIngressHostnameSource K; OriginalExternalDNSIngressHostnameSource K] /\
  IngressDisabledReasonNormal K <> IngressDisabledReasonExternalDNS K.

Section Reenabler.

Variable K : ControllerConsts.

(** [isDisabledIngress] (for a non-nil Ingress). *)
Definition isDisabledIngress (ingress : Ingress) : bool :=
  let annotations := ing_annotations ingress in
  if String.eqb (ann_get annotations (IngressDisabledAnnotation K)) "" then false
  else if match ing_class_name ingress with
          | Some c => String.eqb c (DisabledIngressClassName K)
          | None => false
          end then true
  else if String.eqb (ann_get annotations (IngressClassAnnotation K))
                     (DisabledIngressClassName K) then true
  else false.

(** The class branch of [restoreIngressState]: new class name,
    annotations and [modified]. *)
Definition restore_class (ingress : Ingress) (annotations : gmap string string)
  : option string * gmap string string * bool :=
  let originalClassName := ann_get annotations (OriginalIngressClassNameAnnotation K) in
  let originalClassAnnotation := ann_get annotations (OriginalIngressClassAnnotation K) in
  let className := if String.eqb originalClassName "" then None else Some originalClassName in
  let annotations :=
    if String.eqb originalClassAnnotation "" then delete (IngressClassAnnotation K) annotations
    else <[IngressClassAnnotation K := originalClassAnnotation]> annotations in
  let annotations := delete (IngressDisabledAnnotation K) annotations in
  let annotations := delete (OriginalIngressClassNameAnnotation K) annotations in
  let annotations := delete (OriginalIngressClassAnnotation K) annotations in
  (className, annotations, true).

(** The external-dns branch of [restoreIngressState]. *)
Definition restore_external_dns (annotations : gmap string string) (modified : bool)
  : gmap string string * bool :=
  let '(annotations, modified) :=
    match annotations !! OriginalExternalDNSHostname K with
    | Some originalHostname =>
        let annotations :=
          if String.eqb originalHostname "" then delete (ExternalDNSHostnameAnnotation K) annotations
          else <[ExternalDNSHostnameAnnotation K := originalHostname]> annotations in
        (delete (OriginalExternalDNSHostname K) annotations, true)
    | None => (annotations, modified)
    end in
  match annotations !! OriginalExternalDNSIngressHostnameSource K with
  | Some originalSource =>
      let annotations :=
        if String.eqb originalSource "" then delete (ExternalDNSIngressHostnameSource K) annotations
        else <[ExternalDNSIngressHostnameSource K := originalSource]> annotations in
      (delete (OriginalExternalDNSIngressHostnameSource K) annotations, true)
  | None =>
      match annotations !! ExternalDNSIngressHostnameSource K with
      | Some _ => (delete (ExternalDNSIngressHostnameSource K) annotations, true)
      | None => (annotations, modified)
      end
  end.

(** [restoreIngressState]: [Some updated] when [cli.Update(ctx, updated)]
    is issued, [None] when the function returns without a write. *)
Definition restoreIngressState (ingress : Ingress) (restoreClass restoreExternalDNS : bool)
  : option Ingress :=
  let annotations := ing_annotations ingress in
  let '(className, annotations, modified) :=
    if restoreClass then restore_class ingress annotations
    else (ing_class_name ingress, annotations, false) in
  let '(annotations, modified) :=
    if restoreExternalDNS then restore_external_dns annotations modified
    else (annotations, modified) in
  if modified then
    Some {| ing_namespace := ing_namespace ingress; ing_name := ing_name ingress;
            ing_class_name := className; ing_annotations := annotations;
            ing_rule_hosts := ing_rule_hosts ingress |}
  else None.

(** [shouldDeleteIngress] (for a non-nil Ingress). *)
Definition shouldDeleteIngress (ingress : Ingress) : bool :=
  let annotations := ing_annotations ingress in
  let disabledValue := ann_get annotations (IngressDisabledAnnotation K) in
  if String.eqb disabledValue "" then false
  else if String.eqb disabledValue (IngressDisabledReasonNormal K) then isDisabledIngress ingress
  else if String.eqb disabledValue (IngressDisabledReasonExternalDNS K) then
    if String.eqb (ann_get annotations (ExternalDNSIngressHostnameSource K)) "" then false
    else if bool_decide (is_Some (annotations !! OriginalExternalDNSHostname K)) then true
    else if bool_decide (is_Some (annotations !! OriginalExternalDNSIngressHostnameSource K))
    then true
    else false
  else false.

(** HTTPRoutes and Gateways are opaque here: only the ownership checks of
    package utils ([IsManagedByUsForIngress], [IsManagedByUsWithIngress])
    look inside them. *)
Variables (Route GatewayObj : Type).
Variable IsManagedByUsForIngress : Route -> string -> string -> bool.
Variable IsManagedByUsWithIngress : GatewayObj -> string -> string -> bool.

(** [utils.HTTPRouteManager]: its route listing by name prefix. *)
Record HTTPRouteManager := {
  GetHTTPRoutesWithPrefix : string -> string -> result (list Route)
}.

(** The cluster client: its [List] of Gateways. *)
Record Client := { ListGateways : result (list GatewayObj) }.

(** [hasManagedResources]; [None] is a nil manager. *)
Definition hasManagedResources (cli : Client) (manager : option HTTPRouteManager)
    (ingress : Ingress) : result (bool * bool) :=
  match manager with
  | None => Ok (false, false)
  | Some mgr =>
      routes ← GetHTTPRoutesWithPrefix mgr (ing_namespace ingress) (ing_name ingress);
      let hasRoute :=
        existsb (fun r => IsManagedByUsForIngress r (ing_namespace ingress) (ing_name ingress))
          routes in
      if negb hasRoute then Ok (false, false)
      else
        gateways ← ListGateways cli;
        if existsb (fun g => IsManagedByUsWithIngress g (ing_namespace ingress) (ing_name ingress))
             gateways
        then Ok (true, true)
        else Ok (hasRoute, false)
  end.

(** [checkDeleteEligibility] (for a non-nil Ingress): [Ok (ok, reason)]
    or the error. *)
Definition checkDeleteEligibility (cli : Client) (manager : option HTTPRouteManager)
    (ingress : Ingress) : result (bool * string) :=
  if String.eqb (ann_get (ing_annotations ingress) (IngressDisabledAnnotation K)) "" then
    Ok (false, "missing ingress-doperator disabled annotation")
  else if negb (shouldDeleteIngress ingress) then
    Ok (false, "disabled annotation does not satisfy delete criteria")
  else
    '(hasRoute, hasGateway) ← hasManagedResources cli manager ingress;
    if negb hasRoute && negb hasGateway then Ok (false, "missing managed HTTPRoute and Gateway")
    else if negb hasRoute then Ok (false, "missing managed HTTPRoute")
    else if negb hasGateway then Ok (false, "missing managed Gateway")
    else Ok (true, "").

End Reenabler.

(** [needsExternalDNSRestore] (for a non-nil Ingress; a nil annotation
    map is the empty [gmap], where every lookup fails). *)
Definition needsExternalDNSRestore (K : ControllerConsts) (ingress : Ingress) : bool :=
  let annotations := ing_annotations ingress in
  if bool_decide (is_Some (annotations !! OriginalExternalDNSHostname K)) then true
  else if bool_decide (is_Some (annotations !! OriginalExternalDNSIngressHostnameSource K))
  then true
  else bool_decide (is_Some (annotations !! ExternalDNSIngressHostnameSource K)).

(* ------------------------------------------------------------------ *)
(** ** The re-enabler run                                              *)
(* ------------------------------------------------------------------ *)

Section ReenablerRun.

Variable K : ControllerConsts.
Variables (Route GatewayObj : Type).
Variable IsManagedByUsForIngress : Route -> string -> string -> bool.
Variable IsManagedByUsWithIngress : GatewayObj -> string -> string -> bool.
(** [utils.AutomaticSnippetsFilterName]. *)
Variable AutomaticSnippetsFilterName : string -> string.

(** The cluster as [runReenabler] sees it: a state [World] read by the
    client's [List] and [Get] calls and changed by its [Update] and
    [Delete] calls.  A write that fails leaves the state unchanged. *)
Variable World : Type.

Record Cluster := {
  (** [cli.List] of Ingresses: [None] for all namespaces. *)
  ListIngresses : World -> option string -> result (list Ingress);
  (** [manager.GetHTTPRoutesWithPrefix(ctx, namespace, name)]. *)
  RoutesWithPrefix : World -> string -> string -> result (list Route);
  (** [cli.List] of Gateways. *)
  ListGatewaysIn : World -> result (list GatewayObj);
  UpdateIngress : World -> Ingress -> result World;
  DeleteIngress : World -> Ingress -> result World;
  DeleteRoute : World -> Route -> result World;
  (** [utils.GetCRDVersion(ctx, cli, utils.SnippetsFilterCRDName)]: the
      error, or [(version, ok)] as [Some version] / [None]. *)
  SnippetsFilterCRDVersion : World -> result (option string);
  (** [cli.Get] of a SnippetsFilter: version, namespace, name. *)
  GetSnippetsFilter : World -> string -> string -> string -> result Object;
  DeleteSnippetsFilter : World -> Object -> result World
}.

(** The writes issued, in order (whether they succeed or not). *)
Inductive Action :=
  | AUpdateIngress (ing : Ingress)
  | ADeleteIngress (ing : Ingress)
  | ADeleteRoute (r : Route)
  | ADeleteSnippetsFilter (f : Object).

Variable cl : Cluster.

(** The [client.Client] and [HTTPRouteManager] of [checkDeleteEligibility]
    at state [w]. *)
Definition client_at (w : World) : Client GatewayObj :=
  {| ListGateways := ListGatewaysIn cl w |}.
Definition manager_at (w : World) : HTTPRouteManager Route :=
  {| GetHTTPRoutesWithPrefix := RoutesWithPrefix cl w |}.

Definition check_at (w : World) (ingress : Ingress) : result (bool * string) :=
  checkDeleteEligibility K Route GatewayObj IsManagedByUsForIngress IsManagedByUsWithIngress
    (client_at w) (Some (manager_at w)) ingress.

(** The loop of [removeManagedHTTPRoutes]: the final state, the writes
    issued and the error returned ([None] for nil). *)
Fixpoint delete_managed_routes (w : World) (ns name : string) (routes : list Route)
  : World * list Action * option error :=
  match routes with
  | [] => (w, [], None)
  | httpRoute :: rest =>
      if negb (IsManagedByUsForIngress httpRoute ns name) then
        delete_managed_routes w ns name rest
      else match DeleteRoute cl w httpRoute with
           | Err e => (w, [ADeleteRoute httpRoute], Some e)
           | Ok w' =>
               let '(w'', tr, err) := delete_managed_routes w' ns name rest in
               (w'', ADeleteRoute httpRoute :: tr, err)
           end
  end.

(** [removeManagedHTTPRoutes] (for a non-nil manager and Ingress, as
    [runReenabler] calls it). *)
Definition removeManagedHTTPRoutes (w : World) (ingress : Ingress)
  : World * list Action * option error :=
  match RoutesWithPrefix cl w (ing_namespace ingress) (ing_name ingress) with
  | Err e => (w, [], Some e)
  | Ok routes => delete_managed_routes w (ing_namespace ingress) (ing_name ingress) routes
  end.

(** [removeAutomaticSnippetsFilter] (for a non-nil Ingress). *)
Definition removeAutomaticSnippetsFilter (w : World) (ingress : Ingress)
  : World * list Action * option error :=
  let filterName := AutomaticSnippetsFilterName (ing_name ingress) in
  match SnippetsFilterCRDVersion cl w with
  | Err e => (w, [], Some e)
  | Ok None => (w, [], None)
  | Ok (Some version) =>
      match GetSnippetsFilter cl w version (ing_namespace ingress) filterName with
      | Err e => if IsNotFound e then (w, [], None) else (w, [], Some e)
      | Ok filter =>
          if negb (IsManagedByUs filter) then (w, [], None)
          else match DeleteSnippetsFilter cl w filter with
               | Err e => (w, [ADeleteSnippetsFilter filter], Some e)
               | Ok w' => (w', [ADeleteSnippetsFilter filter], None)
               end
      end
  end.

Section Flags.

Variables removeDerivedResources restoreClass restoreExternalDNS
          dangerouslyDeleteIngresses : bool.

(** The first loop of [runReenabler] (run when
    [dangerouslyDeleteIngresses]): every Ingress must be eligible. *)
Fixpoint precheck_all (w : World) (items : list Ingress) : result unit :=
  match items with
  | [] => Ok tt
  | ingress :: rest =>
      match check_at w ingress with
      | Err e => Err e
      | Ok (false, reason) =>
          Err (ErrOther ("refusing to delete ingress " ++ ing_namespace ingress ++ "/" ++
                         ing_name ingress ++ ": " ++ reason))
      | Ok (true, _) => precheck_all w rest
      end
  end.

(** What the second loop of [runReenabler] does after
    [restoreIngressState] returned nil: remove the derived resources of a
    re-enabled Ingress when asked to. *)
Definition after_restore (w : World) (ingress : Ingress) (tr : list Action)
  : World * list Action :=
  if isDisabledIngress K ingress && restoreClass && removeDerivedResources then
    let '(w2, tr2, err2) := removeManagedHTTPRoutes w ingress in
    match err2 with
    | Some _ => (w2, tr ++ tr2)
    | None =>
        let '(w3, tr3, _) := removeAutomaticSnippetsFilter w2 ingress in
        (w3, tr ++ tr2 ++ tr3)
    end
  else (w, tr).

(** The body of the second loop of [runReenabler] for one Ingress; a
    [continue] ends it.  Logging is left out. *)
Definition reenable_one (w : World) (ingress : Ingress) : World * list Action :=
  let disabled := isDisabledIngress K ingress in
  if dangerouslyDeleteIngresses && shouldDeleteIngress K ingress then
    match check_at w ingress with
    | Err _ => (w, [])
    | Ok (false, _) => (w, [])
    | Ok (true, _) =>
        match DeleteIngress cl w ingress with
        | Err _ => (w, [ADeleteIngress ingress])
        | Ok w' => (w', [ADeleteIngress ingress])
        end
    end
  else if negb disabled && (negb restoreExternalDNS || negb (needsExternalDNSRestore K ingress))
  then (w, [])
  else
    match restoreIngressState K ingress (disabled && restoreClass) restoreExternalDNS with
    | None => after_restore w ingress []
    | Some updated =>
        match UpdateIngress cl w updated with
        | Err _ => (w, [AUpdateIngress updated])
        | Ok w' => after_restore w' ingress [AUpdateIngress updated]
        end
    end.

Fixpoint reenable_all (w : World) (items : list Ingress) : World * list Action :=
  match items with
  | [] => (w, [])
  | ingress :: rest =>
      let '(w1, tr1) := reenable_one w ingress in
      let '(w2, tr2) := reenable_all w1 rest in
      (w2, tr1 ++ tr2)
  end.

(** [runReenabler]: the returned error ([Ok tt] for nil), the final state
    and the writes issued. *)
Definition runReenabler (w : World) (namespace : string) : result unit * World * list Action :=
  let listed := if String.eqb namespace "" then ListIngresses cl w None
                else ListIngresses cl w (Some namespace) in
  match listed with
  | Err e => (Err e, w, [])
  | Ok items =>
      match (if dangerouslyDeleteIngresses then precheck_all w items else Ok tt) with
      | Err e => (Err e, w, [])
      | Ok _ => let '(w', tr) := reenable_all w items in (Ok tt, w', tr)
      end
  end.

End Flags.

End ReenablerRun.

(** A sample instantiation of the controller constants (pairwise distinct
    keys and reasons), used for concrete inputs. *)
Definition sample_consts : ControllerConsts := {|
  IngressDisabledAnnotation := "ingress-doperator.fiction.si/disabled";
  IngressClassAnnotation := "kubernetes.io/ingress.class";
  DisabledIngressClassName := "disabled";
  IngressDisabledReasonNormal := "normal";
  IngressDisabledReasonExternalDNS := "external-dns";
  OriginalIngressClassNameAnnotation := "ingress-doperator.fiction.si/original-ingress-classname";
  OriginalIngressClassAnnotation := "ingress-doperator.fiction.si/original-ingress-class";
  ExternalDNSHostnameAnnotation := "external-dns.alpha.kubernetes.io/hostname";
  OriginalExternalDNSHostname := "ingress-doperator.fiction.si/original-external-dns-hostname";
  ExternalDNSIngressHostnameSource := "external-dns.alpha.kubernetes.io/ingress-hostname-source";
  OriginalExternalDNSIngressHostnameSource :=
    "ingress-doperator.fiction.si/original-external-dns-ingress-hostname-source"
|}.

Definition sample_translator : TranslatorConsts := {|
  MismatchedCertAnnotation := "ingress-doperator.fiction.si/certificate-mismatch";
  SourceAnnotation := "ingress-doperator.fiction.si/source"
|}.

(** A disabled Ingress (reason "normal", class "disabled") of the sample
    constants, and a cluster where its HTTPRoute is not managed while a
    managed Gateway exists. *)
Definition c1_ingress : Ingress := {|
  ing_namespace := "default"; ing_name := "web";
  ing_class_name := Some "disabled"%string;
  ing_annotations := {[ "ingress-doperator.fiction.si/disabled"%string := "normal"%string ]};
  ing_rule_hosts := ["web.example.com"%string] |}.

Definition c1_manager : HTTPRouteManager string :=
  {| GetHTTPRoutesWithPrefix := fun _ _ => Ok ["web-unmanaged"%string] |}.

Definition c1_client : Client string := {| ListGateways := Ok ["managed"%string] |}.

Definition c1_managed (obj ns name : string) : bool := String.eqb obj "managed".


(* ------------------------------------------------------------------ *)
(** ** Sample inputs for the reconcile cache                            *)
(* ------------------------------------------------------------------ *)

Definition empty_store : ConfigMapStore := {| cm_data := ∅; cm_broken := ∅; cm_readonly := ∅ |}.

(** A store where writing the ConfigMap [c-3] fails. *)
Definition readonly_store : ConfigMapStore :=
  {| cm_data := ∅; cm_broken := ∅; cm_readonly := {[ "c-3"%string ]} |}.

(** The store after a save, or the empty store if the save failed. *)
Definition store_of (r : result ConfigMapStore) : ConfigMapStore :=
  match r with Ok st => st | Err _ => empty_store end.

Definition c7_entries : gmap string ReconcileCacheEntry :=
  {[ "ns__ing"%string := {| ResourceVersion := "42"; UpdatedAtUnix := 1000 |} ]}.

Definition c7_bar_entries : gmap string ReconcileCacheEntry :=
  {[ "ns__ing"%string := {| ResourceVersion := "a|b"; UpdatedAtUnix := 1000 |} ]}.

(* ------------------------------------------------------------------ *)
(** ** Sample Gateways and Ingresses                                    *)
(* ------------------------------------------------------------------ *)

(** Listener removal test data: one listener per name. *)
Definition mk_listener (name : string) : Listener :=
  {| ln_name := name; ln_hostname := Some name; ln_port := 443; ln_protocol := "HTTPS" |}.

Definition mk_gateway (ls : list Listener) : Gateway :=
  {| gw_annotations := ∅; gw_class := "doperator"; gw_infra := None; gw_listeners := ls |}.

Definition mk_ingress (hosts : list string) : Ingress :=
  {| ing_namespace := "default"; ing_name := "web"; ing_class_name := None;
     ing_annotations := ∅; ing_rule_hosts := hosts |}.

(** A possible outcome of [MergeGatewaySpec] when [desired] has no
    annotations and no infrastructure: listeners in map order. *)
Definition merge_outcome (existing desired : Gateway) : Gateway :=
  {| gw_annotations := gw_annotations existing; gw_class := gw_class desired;
     gw_infra := gw_infra existing;
     gw_listeners := (map_to_list (merged_listeners existing desired)).*2 |}.

Definition plain_ingress : Ingress := {|
  ing_namespace := "default"; ing_name := "plain";
  ing_class_name := None; ing_annotations := ∅;
  ing_rule_hosts := [] |}.

(* ------------------------------------------------------------------ *)
(** ** Sample inputs for the re-enabler and the ReferenceGrant helpers  *)
(* ------------------------------------------------------------------ *)

(** An Ingress disabled for external-dns, with a saved hostname and a
    saved hostname source. *)
Definition dns_ingress : Ingress := {|
  ing_namespace := "default"; ing_name := "web";
  ing_class_name := None;
  ing_annotations :=
    <["ingress-doperator.fiction.si/disabled"%string := "external-dns"%string]>
    (<["external-dns.alpha.kubernetes.io/hostname"%string := ""%string]>
    (<["ingress-doperator.fiction.si/original-external-dns-hostname"%string :=
         "web.example.com"%string]>
    (<["external-dns.alpha.kubernetes.io/ingress-hostname-source"%string :=
         "annotation-only"%string]>
    {[ "ingress-doperator.fiction.si/original-external-dns-ingress-hostname-source"%string :=
         "defined-hosts-only"%string ]})));
  ing_rule_hosts := ["web.example.com"%string] |}.

(** Ownership checks of the sample cluster: the route [name-managed] and
    the Gateway [namespace/name] belong to an Ingress. *)
Definition sample_route_managed (r ns name : string) : bool :=
  String.eqb r (name ++ "-managed").

Definition sample_gateway_managed (g ns name : string) : bool :=
  String.eqb g (ns ++ "/" ++ name).

Definition sample_snippets_filter_name (name : string) : string := name ++ "-snippets".

(** A cluster whose state counts the successful writes; every call
    succeeds, every Ingress has a managed and an unmanaged HTTPRoute and
    the managed SnippetsFilter exists. *)
Definition sample_cluster (items : list Ingress) : Cluster string string nat := {|
  ListIngresses := fun _ _ => Ok items;
  RoutesWithPrefix := fun _ _ name => Ok [(name ++ "-managed")%string; (name ++ "-other")%string];
  ListGatewaysIn := fun _ => Ok ["default/web"%string];
  UpdateIngress := fun w _ => Ok (S w);
  DeleteIngress := fun w _ => Ok (S w);
  DeleteRoute := fun w _ => Ok (S w);
  SnippetsFilterCRDVersion := fun _ => Ok (Some "v1alpha1"%string);
  GetSnippetsFilter := fun _ _ _ _ =>
    Ok {| obj_annotations := {[ ManagedByAnnotation := ManagedByValue ]} |};
  DeleteSnippetsFilter := fun w _ => Ok (S w)
|}.

(** [runReenabler] of the sample cluster. *)
Definition sample_run (items : list Ingress) (rd rc re dd : bool) : result unit * nat * list (Action string) :=
  runReenabler sample_consts string string sample_route_managed sample_gateway_managed
    sample_snippets_filter_name nat (sample_cluster items) rd rc re dd 0%nat "".

(** A ReferenceGrant store: the grants by namespace; the spec is the
    namespace it allows. *)
Definition sample_grant (ns : string) (managed : bool) : ReferenceGrant string :=
  {| rg_meta := {| obj_annotations :=
       if managed then {[ ManagedByAnnotation := ManagedByValue ]} else ∅ |};
     rg_spec := ns |}.

Definition sample_grant_client : GrantClient string (gmap string (ReferenceGrant string)) := {|
  GetGrant := fun w ns _ => match w !! ns with Some g => Ok g | None => Err ErrNotFound end;
  CreateGrant := fun w g => Ok (<[rg_spec string g := g]> w);
  UpdateGrant := fun w g => Ok (<[rg_spec string g := g]> w);
  DeleteGrant := fun w g => Ok (delete (rg_spec string g) w);
  ListIngressesIn := fun _ ns => Ok [mk_ingress []]
|}.

(** Namespaces [a] (with a grant of ours), [b] (with none) and [c] (with
    a foreign grant). *)
Definition sample_grants : gmap string (ReferenceGrant string) :=
  <["a"%string := sample_grant "a" true]> {[ "c"%string := sample_grant "c" false ]}.

(* ================================================================== *)
(** * Examples                                                         *)
(* ================================================================== *)

Example itoa_ex : itoa (-1203) = "-1203"%string. Proof. reflexivity. Qed.
Example parse_ex : ParseInt "-1203" = Some (-1203). Proof. reflexivity. Qed.
Example split_ex : Split "a, b,,c" ","%char = ["a"; " b"; ""; "c"]%string. Proof. reflexivity. Qed.
Example trim_ex : TrimSpace "  a b  " = "a b"%string. Proof. reflexivity. Qed.
Example fmt_ex : parseReconcileCacheEntry "12345|1700000000"
  = Some {| ResourceVersion := "12345"; UpdatedAtUnix := 1700000000 |}. Proof. reflexivity. Qed.
Example fmt_bar_ex : parseReconcileCacheEntry
  (formatReconcileCacheEntry {| ResourceVersion := "a|b"; UpdatedAtUnix := 5 |}) = None.
Proof. reflexivity. Qed.

(* ================================================================== *)
(** * Lemmas on the string and number primitives                      *)
(* ================================================================== *)

Lemma digit_of_digit_char d : 0 <= d < 10 -> digit_of (digit_char d) = Some d.
Proof.
  intros Hd. unfold digit_of, digit_char.
  rewrite nat_ascii_embedding by lia.
  replace (48 <=? 48 + Z.to_nat d)%nat with true by (symmetry; apply Nat.leb_le; lia).
  replace (48 + Z.to_nat d <=? 57)%nat with true by (symmetry; apply Nat.leb_le; lia).
  simpl. f_equal. lia.
Qed.

Lemma digits_from_dec_go k : forall n acc v,
  0 <= n < 10 ^ Z.of_nat k ->
  exists d : nat, digits_from v (dec_go k n acc) = digits_from (v * 10 ^ Z.of_nat d + n) acc.
Proof.
  induction k as [|k IH]; intros n acc v Hn.
  - exists 0%nat. simpl in Hn. replace (v * 10 ^ Z.of_nat 0 + n) with v by (simpl; lia).
    reflexivity.
  - cbn [dec_go]. destruct (n <? 10) eqn:Hlt.
    + apply Z.ltb_lt in Hlt. exists 1%nat. cbn [digits_from].
      rewrite (Z.mod_small n 10) by lia. rewrite digit_of_digit_char by lia.
      replace (v * 10 ^ 1 + n) with (v * 10 + n) by lia. reflexivity.
    + apply Z.ltb_ge in Hlt.
      destruct (IH (n / 10) (String (digit_char (n mod 10)) acc) v) as [d Hd].
      { split; [apply Z.div_pos; lia|].
        apply Z.div_lt_upper_bound; [lia|].
        rewrite Nat2Z.inj_succ, Z.pow_succ_r in Hn by lia. lia. }
      exists (S d). rewrite Hd. cbn [digits_from].
      rewrite digit_of_digit_char by (pose proof (Z.mod_pos_bound n 10); lia).
      f_equal. rewrite Nat2Z.inj_succ, Z.pow_succ_r by lia.
      pose proof (Z.div_mod n 10 ltac:(lia)) as Hdm.
      remember (10 ^ Z.of_nat d) as P. remember (n / 10) as q. remember (n mod 10) as r.
      nia.
Qed.

Lemma dec_go_nonempty k n acc : acc <> EmptyString -> dec_go k n acc <> EmptyString.
Proof.
  revert n acc. induction k as [|k IH]; intros n acc Hacc; cbn [dec_go]; [done|].
  destruct (n <? 10); [discriminate|]. apply IH. discriminate.
Qed.

Lemma all_digits_dec_go k n acc :
  0 <= n -> all_digits acc = true -> all_digits (dec_go k n acc) = true.
Proof.
  revert n acc. induction k as [|k IH]; intros n acc Hn Hacc; cbn [dec_go]; [done|].
  assert (all_digits (String (digit_char (n mod 10)) acc) = true).
  { cbn [all_digits]. rewrite digit_of_digit_char by (pose proof (Z.mod_pos_bound n 10); lia).
    rewrite Hacc. reflexivity. }
  destruct (n <? 10); [done|]. apply IH; [apply Z.div_pos; lia|done].
Qed.

Lemma dec_go_S_nonempty k n acc : dec_go (S k) n acc <> EmptyString.
Proof.
  cbn [dec_go]. destruct (n <? 10); [discriminate|]. apply dec_go_nonempty. discriminate.
Qed.

Lemma parse_digits_dec_go n :
  0 <= n < 10 ^ 20 -> parse_digits (dec_go 20 n EmptyString) = Some n.
Proof.
  intros Hn. destruct (digits_from_dec_go 20 n EmptyString 0 Hn) as [d Hd].
  pose proof (dec_go_S_nonempty 19 n EmptyString) as Hne.
  assert (Hp : forall s, s <> EmptyString -> parse_digits s = digits_from 0 s)
    by (intros [|c r] ?; done).
  rewrite Hp by done. rewrite Hd. reflexivity.
Qed.

Lemma digit_not_sign c : is_Some (digit_of c) ->
  Ascii.eqb c "-"%char = false /\ Ascii.eqb c "+"%char = false.
Proof.
  intros Hc. split; destruct (Ascii.eqb_spec c "-"%char) as [->|]; try done;
    try (destruct Hc; discriminate);
    destruct (Ascii.eqb_spec c "+"%char) as [->|]; try done; destruct Hc; discriminate.
Qed.

Lemma ParseInt_sign_free s :
  all_digits s = true -> s <> EmptyString ->
  ParseInt s = match parse_digits s with
               | None => None
               | Some v => if int64_rangeb v then Some v else None
               end.
Proof.
  intros Hd Hne. unfold ParseInt. destruct s as [|c r]; [done|].
  simpl in Hd. apply andb_true_iff in Hd as [Hc _]. apply bool_decide_eq_true in Hc.
  destruct (digit_not_sign c Hc) as [-> ->]. reflexivity.
Qed.

Lemma ParseInt_minus r :
  ParseInt (String "-"%char r) = match parse_digits r with
                                 | None => None
                                 | Some v => if int64_rangeb (- v) then Some (- v) else None
                                 end.
Proof. reflexivity. Qed.

Lemma int64_rangeb_true z : int64_range z -> int64_rangeb z = true.
Proof.
  unfold int64_range, int64_rangeb. intros Hz.
  apply andb_true_iff; split; apply Z.leb_le; lia.
Qed.

Lemma ParseInt_itoa z : int64_range z -> ParseInt (itoa z) = Some z.
Proof.
  intros Hz. pose proof Hz as Hz'. unfold int64_range in Hz'.
  unfold itoa. destruct (z <? 0) eqn:Hneg.
  - apply Z.ltb_lt in Hneg. rewrite ParseInt_minus, parse_digits_dec_go by lia.
    replace (- - z) with z by lia. rewrite int64_rangeb_true by done. reflexivity.
  - apply Z.ltb_ge in Hneg.
    rewrite ParseInt_sign_free.
    + rewrite parse_digits_dec_go by lia. rewrite int64_rangeb_true by done. reflexivity.
    + apply all_digits_dec_go; [lia|done].
    + apply dec_go_S_nonempty.
Qed.

Lemma Split_not_nil s sep : Split s sep <> [].
Proof.
  induction s as [|c r IH]; simpl; [discriminate|].
  destruct (Ascii.eqb c sep); [discriminate|]. destruct (Split r sep); discriminate.
Qed.

Lemma Split_no_sep s sep : has_char sep s = false -> Split s sep = [s].
Proof.
  induction s as [|c r IH]; simpl; intros H; [done|].
  apply orb_false_iff in H as [Hc Hr]. rewrite Hc, IH by done. reflexivity.
Qed.

Lemma Split_app_sep a b sep :
  has_char sep a = false -> Split (a ++ String sep b) sep = a :: Split b sep.
Proof.
  induction a as [|c r IH]; simpl; intros H.
  - rewrite Ascii.eqb_refl. reflexivity.
  - apply orb_false_iff in H as [Hc Hr]. rewrite Hc, IH by done. reflexivity.
Qed.

Lemma length_Split s sep : length (Split s sep) = S (count_char sep s).
Proof.
  induction s as [|c r IH]; simpl; [done|].
  destruct (Ascii.eqb c sep); simpl; [by rewrite IH|].
  destruct (Split r sep) eqn:E; [by destruct (Split_not_nil r sep)|]. simpl in *. lia.
Qed.

Lemma count_char_app c a b : count_char c (a ++ b) = (count_char c a + count_char c b)%nat.
Proof. induction a as [|x r IH]; simpl; [done|]. rewrite IH. lia. Qed.

Lemma count_char_pos c s : has_char c s = true -> (1 <= count_char c s)%nat.
Proof.
  induction s as [|x r IH]; simpl; [discriminate|].
  intros [H|H]%orb_true_iff; [rewrite H; lia|]. specialize (IH H). lia.
Qed.

Lemma all_digits_no_bar s : all_digits s = true -> has_char "|"%char s = false.
Proof.
  induction s as [|c r IH]; simpl; [done|].
  intros [Hc Hr]%andb_true_iff. apply bool_decide_eq_true in Hc.
  rewrite IH by done. destruct (Ascii.eqb_spec c "|"%char) as [->|]; [|done].
  destruct Hc; discriminate.
Qed.

Lemma itoa_no_bar z : has_char "|"%char (itoa z) = false.
Proof.
  unfold itoa. destruct (z <? 0) eqn:Hz.
  - apply Z.ltb_lt in Hz. cbn [has_char]. rewrite all_digits_no_bar; [done|].
    apply all_digits_dec_go; [lia|done].
  - apply Z.ltb_ge in Hz. apply all_digits_no_bar, all_digits_dec_go; [lia|done].
Qed.

(** Parsing inverts formatting when the version token has no ['|']. *)
Lemma parse_format_entry e :
  has_char "|"%char (ResourceVersion e) = false -> int64_range (UpdatedAtUnix e) ->
  parseReconcileCacheEntry (formatReconcileCacheEntry e) = Some e.
Proof.
  intros Hbar Hts. unfold parseReconcileCacheEntry, formatReconcileCacheEntry.
  rewrite Split_app_sep by done. rewrite (Split_no_sep (itoa _)) by apply itoa_no_bar.
  rewrite ParseInt_itoa by done. destruct e; reflexivity.
Qed.

(** With a ['|'] in the version token the serialised entry has more than
    two ['|']-separated fields and does not parse. *)
Lemma parse_format_entry_bar e :
  has_char "|"%char (ResourceVersion e) = true ->
  (2 < length (Split (formatReconcileCacheEntry e) "|"%char))%nat /\
  parseReconcileCacheEntry (formatReconcileCacheEntry e) = None.
Proof.
  intros Hbar.
  assert (Hlen : (2 < length (Split (formatReconcileCacheEntry e) "|"%char))%nat).
  { rewrite length_Split. unfold formatReconcileCacheEntry.
    rewrite count_char_app. cbn [count_char]. rewrite Ascii.eqb_refl.
    pose proof (count_char_pos _ _ Hbar). lia. }
  split; [done|]. unfold parseReconcileCacheEntry.
  destruct (Split _ _) as [|p0 [|p1 [|p2 rest]]]; simpl in Hlen; try lia; reflexivity.
Qed.

Example fnv_ex : fnv32a "a" = 3826002220. Proof. reflexivity. Qed.
Example roundtrip_ex :
  let M : gmap string ReconcileCacheEntry :=
    {[ "ns__ing"%string := {| ResourceVersion := "42"; UpdatedAtUnix := 1000 |};
       "ns__other"%string := {| ResourceVersion := "a|b"; UpdatedAtUnix := 1000 |} ]} in
  match SaveReconcileCacheSharded {| cm_data := ∅; cm_broken := ∅; cm_readonly := ∅ |} "c" 16 M with
  | Ok st => LoadReconcileCacheSharded st "c" 16 2000
  | Err e => Err e
  end = Ok {[ "ns__ing"%string := {| ResourceVersion := "42"; UpdatedAtUnix := 1000 |} ]}.
Proof. vm_compute. reflexivity. Qed.

(* ================================================================== *)
(** * Lemmas on the sharded reconcile cache                            *)
(* ================================================================== *)

Section CacheLemmas.

Lemma reconcileCacheShardForKey_small key N :
  N < 2^32 ->
  reconcileCacheShardForKey key N = Some (if N <=? 1 then 0 else fnv32a key mod N).
Proof.
  intros HN. unfold reconcileCacheShardForKey. destruct (N <=? 1) eqn:H1; [done|].
  apply Z.leb_gt in H1. rewrite (Z.mod_small N) by lia.
  destruct (N =? 0) eqn:H0; [apply Z.eqb_eq in H0; lia|]. reflexivity.
Qed.

Lemma partition_shards_spec N (f : string -> Z) (M : gmap string ReconcileCacheEntry) :
  (forall k, reconcileCacheShardForKey k N = Some (f k)) ->
  exists P, partition_shards N M = Ok P /\
    forall i, P !!! i = filter (fun kv : string * string => f kv.1 = i)
                          (formatReconcileCacheEntry <$> M).
Proof.
  intros Hf. unfold partition_shards.
  apply (map_fold_weak_ind
    (fun r m => exists P, r = Ok P /\
       forall i, P !!! i = filter (fun kv : string * string => f kv.1 = i)
                             (formatReconcileCacheEntry <$> m))).
  - exists ∅. split; [done|]. intros i.
    rewrite lookup_total_empty, fmap_empty, map_filter_empty. reflexivity.
  - intros k v m r Hk [P [-> HP]]. cbn. rewrite Hf. cbn.
    eexists; split; [reflexivity|]. intros i.
    rewrite fmap_insert. destruct (decide (f k = i)) as [<-|Hne].
    + rewrite lookup_total_insert_eq, map_filter_insert_True by done. by rewrite HP.
    + rewrite lookup_total_insert_ne by done.
      rewrite map_filter_insert_False by done.
      rewrite delete_id; [apply HP|]. by rewrite lookup_fmap, Hk.
Qed.

Lemma shard_name_inj base i j :
  0 <= i < 2^63 -> 0 <= j < 2^63 -> shard_name base i = shard_name base j -> i = j.
Proof.
  unfold shard_name. intros Hi Hj Heq. apply String.app_inj in Heq.
  injection Heq as Heq.
  assert (Some i = Some j) as [=]; [|done].
  rewrite <- (ParseInt_itoa i), <- (ParseInt_itoa j) by (unfold int64_range; lia).
  by rewrite Heq.
Qed.

Lemma cm_put_ok st name d st1 :
  cm_put st name d = Ok st1 ->
  (name ∉ cm_readonly st) /\ cm_data st1 = <[name := d]> (cm_data st) /\
  cm_broken st1 = cm_broken st /\ cm_readonly st1 = cm_readonly st.
Proof. unfold cm_put. case_bool_decide; [discriminate|]. intros [= <-]. done. Qed.

(** A successful step of [write_shards]: the [Get] did not fail and the
    write succeeded. *)
Lemma write_shards_cons_ok st base P i rest st' :
  write_shards st base P (i :: rest) = Ok st' ->
  (shard_name base i ∉ cm_broken st) /\
  exists st1, cm_put st (shard_name base i) (P !!! i) = Ok st1 /\
              write_shards st1 base P rest = Ok st'.
Proof.
  simpl. unfold cm_get at 1. case_bool_decide; [discriminate|].
  intros Hw. split; [done|].
  destruct (cm_data st !! _); simpl in Hw;
    destruct (cm_put st _ _) as [st1|e] eqn:Hp; try discriminate; eauto.
Qed.

Lemma write_shards_spec st base P idx st' :
  NoDup idx ->
  (forall i j, i ∈ idx -> j ∈ idx -> shard_name base i = shard_name base j -> i = j) ->
  write_shards st base P idx = Ok st' ->
  cm_broken st' = cm_broken st /\
  forall i, i ∈ idx ->
    (shard_name base i ∉ cm_broken st) /\ cm_data st' !! shard_name base i = Some (P !!! i).
Proof.
  revert st. induction idx as [|i0 rest IH]; intros st Hnd Hinj Hw.
  - simpl in Hw. injection Hw as <-. split; [done|]. intros i Hi. set_solver.
  - apply NoDup_cons in Hnd as [Hi0 Hnd].
    destruct (write_shards_cons_ok _ _ _ _ _ _ Hw) as (Hnb & st1 & Hp & Hw').
    destruct (cm_put_ok _ _ _ _ Hp) as (_ & Hd1 & Hb1 & _).
    destruct (IH _ Hnd ltac:(intros; apply Hinj; set_solver) Hw') as [Hb Hrest].
    split; [by rewrite Hb, Hb1|]. intros i Hi. apply elem_of_cons in Hi as [->|Hi].
    + split; [done|].
      assert (Hkeep : forall l sa sb, NoDup l -> i0 ∉ l ->
                (forall j, j ∈ l -> shard_name base j <> shard_name base i0) ->
                write_shards sa base P l = Ok sb ->
                cm_data sb !! shard_name base i0 = cm_data sa !! shard_name base i0).
      { induction l as [|j l IHl]; intros sa sb Hndl Hil Hne Hwl.
        - simpl in Hwl. by injection Hwl as <-.
        - apply NoDup_cons in Hndl as [_ Hndl].
          destruct (write_shards_cons_ok _ _ _ _ _ _ Hwl) as (_ & sc & Hpc & Hwc).
          destruct (cm_put_ok _ _ _ _ Hpc) as (_ & Hdc & _ & _).
          rewrite (IHl _ _ Hndl ltac:(set_solver) ltac:(intros; apply Hne; set_solver) Hwc).
          rewrite Hdc. rewrite lookup_insert_ne; [done|]. apply Hne. set_solver. }
      rewrite (Hkeep rest st1 st' Hnd Hi0); [rewrite Hd1; by rewrite lookup_insert_eq| |exact Hw'].
      intros j Hj Heq. apply Hi0. rewrite <- (Hinj j i0); set_solver.
    + destruct (Hrest i Hi) as [Hnb' Hd]. split; [|done]. by rewrite Hb1 in Hnb'.
Qed.

Lemma load_shards_spec st base cutoff (D : Z -> gmap string string) out idx :
  (forall i, i ∈ idx -> cm_get st (shard_name base i) = Ok (D i)) ->
  load_shards st base cutoff out idx =
    Ok (foldl (fun out i => load_shard_data cutoff (D i) out) out idx).
Proof.
  revert out. induction idx as [|i rest IH]; intros out HD; simpl; [done|].
  rewrite HD by set_solver. apply IH. intros; apply HD; set_solver.
Qed.

Lemma load_shard_data_spec cutoff d out :
  load_shard_data cutoff d out = omap (load_entry cutoff) d ∪ out.
Proof.
  unfold load_shard_data.
  apply (map_fold_weak_ind (fun r m => r = omap (load_entry cutoff) m ∪ out)).
  - by rewrite omap_empty, (left_id_L ∅ (∪)).
  - intros k v m r Hk ->. destruct (load_entry cutoff v) as [e|] eqn:He.
    + by rewrite (omap_insert_Some _ _ _ _ e), insert_union_l.
    + rewrite omap_insert_None by done. rewrite delete_id; [done|].
      by rewrite lookup_omap, Hk.
Qed.

End CacheLemmas.

Lemma load_partitioned_lookup (f : string -> Z) (M : gmap string ReconcileCacheEntry)
    cutoff out idx k :
  foldl (fun out i => load_shard_data cutoff
           (filter (fun kv : string * string => f kv.1 = i) (formatReconcileCacheEntry <$> M)) out)
        out idx !! k
  = (if bool_decide (f k ∈ idx)
     then omap (load_entry cutoff) (formatReconcileCacheEntry <$> M) !! k else None)
    ∪ out !! k.
Proof.
  revert out. induction idx as [|i rest IH]; intros out; cbn [foldl].
  - rewrite bool_decide_eq_false_2 by set_solver. by destruct (out !! k).
  - rewrite IH, load_shard_data_spec, lookup_union, !lookup_omap, map_lookup_filter.
    destruct (decide (f k = i)) as [Heq|Hne].
    + rewrite (bool_decide_eq_true_2 (f k ∈ i :: rest)) by set_solver.
      destruct ((formatReconcileCacheEntry <$> M) !! k) as [x|]; simpl.
      * rewrite option_guard_True by done. simpl.
        case_bool_decide; destruct (load_entry cutoff x), (out !! k); done.
      * case_bool_decide; destruct (out !! k); done.
    + assert (bool_decide (f k ∈ i :: rest) = bool_decide (f k ∈ rest)) as ->.
      { apply bool_decide_ext. set_solver. }
      destruct ((formatReconcileCacheEntry <$> M) !! k) as [x|]; simpl.
      * rewrite option_guard_False by done. simpl.
        case_bool_decide; destruct (load_entry cutoff x), (out !! k); done.
      * case_bool_decide; destruct (out !! k); done.
Qed.

(** Loading with the same shard count after a successful save yields the
    saved map, each entry passed through [load_entry] on its serialised
    form: entries that do not parse back or are older than the cutoff are
    dropped, all others come back. *)
Lemma load_after_save st base N now (M : gmap string ReconcileCacheEntry) st' :
  N < 2^32 ->
  SaveReconcileCacheSharded st base N M = Ok st' ->
  LoadReconcileCacheSharded st' base N now =
    Ok (omap (fun e => load_entry (now - ReconcileCacheTTL) (formatReconcileCacheEntry e)) M).
Proof.
  intros HN Hsave. unfold SaveReconcileCacheSharded, LoadReconcileCacheSharded in *.
  set (N' := normalize_shard_count N) in *.
  assert (HN' : 1 <= N' < 2^32).
  { subst N'; unfold normalize_shard_count. destruct (N <=? 0) eqn:E;
      [lia|apply Z.leb_gt in E; lia]. }
  set (f := fun k => if N' <=? 1 then 0 else fnv32a k mod N').
  assert (Hf : forall k, 0 <= f k < N').
  { intros k. subst f. destruct (N' <=? 1) eqn:E; [lia|].
    apply Z.leb_gt in E. apply Z.mod_pos_bound. lia. }
  destruct (partition_shards_spec N' f M) as [P [HP HPi]].
  { intros k. apply reconcileCacheShardForKey_small. lia. }
  rewrite HP in Hsave. simpl in Hsave.
  destruct (write_shards_spec st base P (seqZ 0 N') st' (NoDup_seqZ 0 N')) as [Hbr Hw];
    [|exact Hsave|].
  { intros i j Hi Hj. apply elem_of_seqZ in Hi, Hj. apply shard_name_inj; lia. }
  rewrite (load_shards_spec st' base _ (fun i => P !!! i)).
  2: { intros i Hi. destruct (Hw i Hi) as [Hnb Hd].
       unfold cm_get. rewrite bool_decide_eq_false_2.
       - by rewrite Hd.
       - by rewrite Hbr. }
  f_equal. apply map_eq. intros k.
  assert (Hfold : forall l out,
            foldl (fun out i => load_shard_data (now - ReconcileCacheTTL) (P !!! i) out) out l
            = foldl (fun out i => load_shard_data (now - ReconcileCacheTTL)
                (filter (fun kv : string * string => f kv.1 = i)
                   (formatReconcileCacheEntry <$> M)) out) out l).
  { induction l as [|i l IHl]; intros out; [done|].
    cbn [foldl]. rewrite HPi. apply IHl. }
  rewrite Hfold, load_partitioned_lookup.
  rewrite bool_decide_eq_true_2 by (apply elem_of_seqZ; specialize (Hf k); lia).
  rewrite lookup_empty, !lookup_omap, lookup_fmap.
  by destruct (M !! k) as [e|]; simpl; [destruct (load_entry _ _)|].
Qed.

Lemma load_entry_fresh cutoff raw e :
  load_entry cutoff raw = Some e -> cutoff <= UpdatedAtUnix e.
Proof.
  unfold load_entry. destruct (parseReconcileCacheEntry raw) as [e'|]; [|discriminate].
  destruct (UpdatedAtUnix e' <? cutoff) eqn:Hlt; [discriminate|].
  intros [= <-]. apply Z.ltb_ge in Hlt. exact Hlt.
Qed.

Lemma load_shards_fresh st base cutoff out idx R :
  (forall k e, out !! k = Some e -> cutoff <= UpdatedAtUnix e) ->
  load_shards st base cutoff out idx = Ok R ->
  forall k e, R !! k = Some e -> cutoff <= UpdatedAtUnix e.
Proof.
  revert out. induction idx as [|i rest IH]; intros out Hout; simpl.
  - intros [= <-]. exact Hout.
  - destruct (cm_get st (shard_name base i)) as [d|[| |]]; try discriminate.
    + apply IH. intros k e. rewrite load_shard_data_spec, lookup_union, lookup_omap.
      destruct (d !! k) as [raw|]; simpl.
      * destruct (load_entry cutoff raw) as [e'|] eqn:He; simpl.
        -- destruct (out !! k); intros [= <-]; exact (load_entry_fresh _ _ _ He).
        -- intros Hk. rewrite (left_id_L None union) in Hk. exact (Hout k e Hk).
      * intros Hk. rewrite (left_id_L None union) in Hk. exact (Hout k e Hk).
    + apply IH. exact Hout.
Qed.

(** Whatever the stored ConfigMaps hold, a loaded entry is never older
    than the retention window. *)
Lemma load_fresh st base N now R :
  LoadReconcileCacheSharded st base N now = Ok R ->
  forall k e, R !! k = Some e -> now - ReconcileCacheTTL <= UpdatedAtUnix e.
Proof.
  unfold LoadReconcileCacheSharded. apply load_shards_fresh.
  intros k e. by rewrite lookup_empty.
Qed.

Lemma normalize_shard_count_nonpos N : N <= 0 -> normalize_shard_count N = 1.
Proof. intros HN. unfold normalize_shard_count. by rewrite (proj2 (Z.leb_le N 0) HN). Qed.

(* ================================================================== *)
(** * Lemmas on the re-enabler                                         *)
(* ================================================================== *)

Lemma sample_consts_wf : consts_wf sample_consts.
Proof. split; [apply (bool_decide_unpack _); vm_compute; reflexivity|discriminate]. Qed.

Lemma consts_wf_neq K : consts_wf K ->
  OriginalExternalDNSHostname K <> ExternalDNSHostnameAnnotation K /\
  OriginalExternalDNSHostname K <> ExternalDNSIngressHostnameSource K /\
  OriginalExternalDNSHostname K <> OriginalExternalDNSIngressHostnameSource K /\
  OriginalExternalDNSIngressHostnameSource K <> ExternalDNSIngressHostnameSource K.
Proof.
  intros [Hnd _].
  repeat match goal with H : NoDup (_ :: _) |- _ => apply NoDup_cons in H as [? H] end.
  repeat split; intros Heq; rewrite Heq in *; set_solver.
Qed.

Lemma consts_wf_disabled_neq K : consts_wf K ->
  IngressDisabledAnnotation K <> OriginalIngressClassNameAnnotation K /\
  IngressDisabledAnnotation K <> OriginalIngressClassAnnotation K /\
  IngressDisabledAnnotation K <> ExternalDNSHostnameAnnotation K /\
  IngressDisabledAnnotation K <> OriginalExternalDNSHostname K /\
  IngressDisabledAnnotation K <> ExternalDNSIngressHostnameSource K /\
  IngressDisabledAnnotation K <> OriginalExternalDNSIngressHostnameSource K.
Proof.
  intros [Hnd _].
  repeat match goal with H : NoDup (_ :: _) |- _ => apply NoDup_cons in H as [? H] end.
  repeat split; intros Heq; rewrite Heq in *; set_solver.
Qed.

Lemma String_eqb_empty s : String.eqb s "" = true <-> s = "".
Proof. apply String.eqb_eq. Qed.

(** Every update issued by the external-dns branch alone changes the
    annotations. *)
Lemma restore_external_dns_changes K a a' :
  consts_wf K -> restore_external_dns K a false = (a', true) -> a' <> a.
Proof.
  intros HK Hr. destruct (consts_wf_neq K HK) as (H1 & H2 & H3 & H4).
  unfold restore_external_dns in Hr.
  destruct (a !! OriginalExternalDNSHostname K) as [oh|] eqn:Hoh.
  - (* the shadow hostname is deleted and stays deleted *)
    set (a1 := delete (OriginalExternalDNSHostname K)
                 (if String.eqb oh "" then delete (ExternalDNSHostnameAnnotation K) a
                  else <[ExternalDNSHostnameAnnotation K:=oh]> a)) in Hr.
    assert (Ha1 : a1 !! OriginalExternalDNSHostname K = None)
      by (subst a1; by rewrite lookup_delete_eq).
    assert (Hfin : a' !! OriginalExternalDNSHostname K = None).
    { destruct (a1 !! OriginalExternalDNSIngressHostnameSource K) as [os|] eqn:Hos.
      - injection Hr as <-. rewrite lookup_delete_ne by congruence.
        destruct (String.eqb os ""); [rewrite lookup_delete_ne by congruence
                                     |rewrite lookup_insert_ne by congruence]; done.
      - destruct (a1 !! ExternalDNSIngressHostnameSource K); injection Hr as <-;
          [rewrite lookup_delete_ne by congruence|]; done. }
    intros ->. congruence.
  - destruct (a !! OriginalExternalDNSIngressHostnameSource K) as [os|] eqn:Hos.
    + injection Hr as <-. intros Heq. rewrite <- Heq, lookup_delete_eq in Hos. discriminate.
    + destruct (a !! ExternalDNSIngressHostnameSource K) as [s|] eqn:Hs; [|discriminate].
      injection Hr as <-. intros Heq. rewrite <- Heq, lookup_delete_eq in Hs. discriminate.
Qed.

Lemma restore_external_dns_modified K a m :
  snd (restore_external_dns K a m) = false -> m = false.
Proof.
  unfold restore_external_dns.
  destruct (a !! OriginalExternalDNSHostname K); simpl;
  [destruct (delete _ _ !! OriginalExternalDNSIngressHostnameSource K)
  |destruct (a !! OriginalExternalDNSIngressHostnameSource K)]; simpl; try done;
  repeat match goal with |- context [match ?x with Some _ => _ | None => _ end] =>
           destruct x end; simpl; done.
Qed.

Lemma restore_external_dns_keeps_true K a : snd (restore_external_dns K a true) = true.
Proof.
  unfold restore_external_dns.
  destruct (a !! OriginalExternalDNSHostname K); simpl;
  repeat match goal with |- context [match ?x with Some _ => _ | None => _ end] =>
           destruct x end; simpl; done.
Qed.

Lemma hasManagedResources_route_first Route GatewayObj fr fg cli mgr ing hr hg :
  hasManagedResources Route GatewayObj fr fg cli mgr ing = Ok (hr, hg) ->
  hr = false -> hg = false.
Proof.
  unfold hasManagedResources. intros H ->.
  destruct mgr as [m|]; [|by injection H].
  destruct (GetHTTPRoutesWithPrefix _ m _ _) as [routes|e]; simpl in H; [|discriminate].
  destruct (existsb _ routes); simpl in H; [|by injection H].
  destruct (ListGateways _ cli) as [gws|e]; simpl in H; [|discriminate].
  destruct (existsb _ gws); injection H as <- <-; done.
Qed.

(** The route-only reason of [checkDeleteEligibility] is never returned:
    [hasManagedResources] reports no Gateway whenever it finds no route. *)
Lemma checkDeleteEligibility_no_route_only_reason K Route GatewayObj fr fg cli mgr ing :
  checkDeleteEligibility K Route GatewayObj fr fg cli mgr ing
    <> Ok (false, "missing managed HTTPRoute"%string).
Proof.
  unfold checkDeleteEligibility.
  destruct (String.eqb _ ""); [discriminate|].
  destruct (negb (shouldDeleteIngress K ing)); [discriminate|].
  destruct (hasManagedResources Route GatewayObj fr fg cli mgr ing) as [[hr hg]|e] eqn:Hm;
    simpl; [|discriminate].
  destruct hr; simpl.
  - destruct hg; discriminate.
  - rewrite (hasManagedResources_route_first _ _ _ _ _ _ _ _ _ Hm eq_refl). discriminate.
Qed.

(** Eligibility requires [shouldDeleteIngress] and both managed objects. *)
Lemma checkDeleteEligibility_eligible K Route GatewayObj fr fg cli mgr ing reason :
  checkDeleteEligibility K Route GatewayObj fr fg cli mgr ing = Ok (true, reason) ->
  shouldDeleteIngress K ing = true /\
  hasManagedResources Route GatewayObj fr fg cli mgr ing = Ok (true, true).
Proof.
  unfold checkDeleteEligibility.
  destruct (String.eqb _ ""); [discriminate|].
  destruct (shouldDeleteIngress K ing); simpl; [|discriminate].
  destruct (hasManagedResources Route GatewayObj fr fg cli mgr ing) as [[[] []]|e];
    simpl; discriminate || done.
Qed.

(** The external-dns branch leaves every other annotation untouched. *)
Lemma restore_external_dns_lookup_other K a m k :
  k <> ExternalDNSHostnameAnnotation K -> k <> OriginalExternalDNSHostname K ->
  k <> ExternalDNSIngressHostnameSource K -> k <> OriginalExternalDNSIngressHostnameSource K ->
  fst (restore_external_dns K a m) !! k = a !! k.
Proof.
  intros H1 H2 H3 H4. unfold restore_external_dns.
  destruct (a !! OriginalExternalDNSHostname K) as [oh|];
  [set (a1 := delete (OriginalExternalDNSHostname K)
                 (if String.eqb oh "" then delete (ExternalDNSHostnameAnnotation K) a
                  else <[ExternalDNSHostnameAnnotation K:=oh]> a));
   assert (Ha1 : a1 !! k = a !! k)
     by (subst a1; rewrite lookup_delete_ne by congruence;
         destruct (String.eqb oh ""); [rewrite lookup_delete_ne by congruence
                                      |rewrite lookup_insert_ne by congruence]; done);
   rewrite <- Ha1; clearbody a1; clear Ha1
  |set (a1 := a)];
  (destruct (a1 !! OriginalExternalDNSIngressHostnameSource K) as [os|];
   [simpl; rewrite lookup_delete_ne by congruence;
    destruct (String.eqb os ""); [rewrite lookup_delete_ne by congruence
                                 |rewrite lookup_insert_ne by congruence]; done
   |destruct (a1 !! ExternalDNSIngressHostnameSource K);
    simpl; [rewrite lookup_delete_ne by congruence|]; done]).
Qed.

(* ================================================================== *)
(** * Lemmas on the annotation merge                                   *)
(* ================================================================== *)

Lemma collect_values_seen vals acc :
  acc.2 ⊆ (collect_values vals acc).2 /\
  (forall x, x ∈ vals -> TrimSpace x <> ""%string -> TrimSpace x ∈ (collect_values vals acc).2).
Proof.
  unfold collect_values. revert acc.
  induction vals as [|x l IH]; intros [v sn]; simpl.
  - split; [done|]. intros y Hy. inversion Hy.
  - set (acc' := if negb (String.eqb (TrimSpace x) "") &&
                    negb (bool_decide (TrimSpace x ∈ sn))
                 then (v ++ [TrimSpace x], {[TrimSpace x]} ∪ sn) else (v, sn)).
    destruct (IH acc') as [Hsub Hin].
    assert (Hacc : sn ⊆ acc'.2 /\ (TrimSpace x <> ""%string -> TrimSpace x ∈ acc'.2)).
    { subst acc'. destruct (String.eqb_spec (TrimSpace x) "") as [He|He]; simpl.
      - split; [done|]. intros Hne. done.
      - case_bool_decide; simpl; split; set_solver. }
    destruct Hacc as [Hs Hx].
    split; [set_solver|]. intros y Hy Hne.
    apply elem_of_cons in Hy as [->|Hy]; [|by apply Hin].
    apply Hsub. by apply Hx.
Qed.

Lemma collect_values_noop vals v sn :
  (forall x, x ∈ vals -> TrimSpace x <> ""%string -> TrimSpace x ∈ sn) ->
  collect_values vals (v, sn) = (v, sn).
Proof.
  unfold collect_values. induction vals as [|x l IH]; intros Hall; simpl; [done|].
  replace (negb (String.eqb (TrimSpace x) "") && negb (bool_decide (TrimSpace x ∈ sn)))
    with false.
  - apply IH. intros y Hy. apply Hall. by right.
  - destruct (String.eqb_spec (TrimSpace x) "") as [He|He]; [done|].
    rewrite bool_decide_eq_true_2; [done|]. apply Hall; [left|done].
Qed.

Lemma MergeAnnotationValues_self a :
  MergeAnnotationValues a a = if String.eqb a "" then a else Join (comma_tokens a) ",".
Proof.
  unfold MergeAnnotationValues, comma_tokens.
  destruct (String.eqb a "") eqn:Ha; [done|].
  destruct (collect_values (Split a ","%char) ([], ∅)) as [v sn] eqn:Hc.
  rewrite collect_values_noop; [done|].
  pose proof (proj2 (collect_values_seen (Split a ","%char) ([], ∅))) as Hs.
  rewrite Hc in Hs. exact Hs.
Qed.

Lemma fold_add_trimmed l (sn : gset string) :
  fold_left add_trimmed l sn = sn ∪ fold_left add_trimmed l ∅.
Proof.
  revert sn. induction l as [|x l IH]; intros sn; simpl.
  - set_solver.
  - rewrite IH, (IH (add_trimmed ∅ x)). unfold add_trimmed.
    destruct (String.eqb (TrimSpace x) ""); set_solver.
Qed.

Lemma cert_values_self a : cert_values a a = cert_set a.
Proof.
  unfold cert_values, cert_set. rewrite fold_add_trimmed. set_solver.
Qed.

(* ================================================================== *)
(** * Lemmas on the listener merge                                     *)
(* ================================================================== *)

Lemma fold_ins_notin (l : list Listener) (m : gmap string Listener) k :
  (forall x, x ∈ l -> ln_name x <> k) ->
  fold_left (fun m l => <[ln_name l := l]> m) l m !! k = m !! k.
Proof.
  revert m. induction l as [|y l IH]; intros m Hl; simpl; [done|].
  rewrite IH by (intros x Hx; apply Hl; by right).
  rewrite lookup_insert_ne; [done|]. apply Hl. left.
Qed.

Lemma fold_ins_some (l : list Listener) (m : gmap string Listener) k x :
  fold_left (fun m l => <[ln_name l := l]> m) l m !! k = Some x ->
  (x ∈ l /\ ln_name x = k) \/ m !! k = Some x.
Proof.
  revert m. induction l as [|y l IH]; intros m; simpl; [by right|].
  intros H. destruct (IH _ H) as [[Hx Hk]|Hm].
  - left. split; [by right|done].
  - destruct (decide (ln_name y = k)) as [<-|Hne].
    + rewrite lookup_insert_eq in Hm. injection Hm as <-. left. split; [left|done].
    + rewrite lookup_insert_ne in Hm by done. by right.
Qed.

Lemma fold_ins_in (l : list Listener) (m : gmap string Listener) x :
  NoDup (ln_name <$> l) -> x ∈ l ->
  fold_left (fun m l => <[ln_name l := l]> m) l m !! ln_name x = Some x.
Proof.
  revert m. induction l as [|y l IH]; intros m Hnd Hx; [inversion Hx|].
  simpl in Hnd |- *. apply NoDup_cons in Hnd as [Hy Hnd].
  apply elem_of_cons in Hx as [->|Hx].
  - rewrite fold_ins_notin; [by rewrite lookup_insert_eq|].
    intros z Hz Heq. apply Hy. rewrite <- Heq. by apply list_elem_of_fmap_2.
  - by apply IH.
Qed.

Lemma fmap_name_snd (l : list (string * Listener)) :
  (forall k v, (k, v) ∈ l -> ln_name v = k) -> ln_name <$> l.*2 = l.*1.
Proof.
  induction l as [|[k v] l IH]; intros Hl; simpl; [done|].
  f_equal; [apply Hl; left|]. apply IH. intros k' v' H. apply Hl. by right.
Qed.

Lemma merged_listeners_names existing desired k v :
  merged_listeners existing desired !! k = Some v -> ln_name v = k.
Proof.
  unfold merged_listeners. intros H.
  destruct (fold_ins_some _ _ _ _ H) as [[_ Hk]|H']; [done|].
  destruct (fold_ins_some _ _ _ _ H') as [[_ Hk]|H'']; [done|].
  by rewrite lookup_empty in H''.
Qed.

(* ================================================================== *)
(** * Claims                                                           *)
(* ================================================================== *)

(** Claim C1 (code defect).  A declaration that satisfies
    [shouldDeleteIngress], whose HTTPRoute is not managed but for which a
    managed Gateway exists, is refused with the reason for both objects
    missing, "missing managed HTTPRoute and Gateway", not with the
    route-only reason: [hasManagedResources] stops before listing Gateways
    when no managed route is found, so the route-only branch of
    [checkDeleteEligibility] is dead (see
    [checkDeleteEligibility_no_route_only_reason]). *)
Theorem checkDeleteEligibility_route_only_reported_as_both :
  ListGateways string c1_client = Ok ["managed"%string] /\
  existsb (fun g => c1_managed g "default" "web") ["managed"%string] = true /\
  checkDeleteEligibility sample_consts string string c1_managed c1_managed
    c1_client (Some c1_manager) c1_ingress
  = Ok (false, "missing managed HTTPRoute and Gateway"%string).
Proof. split; [reflexivity|]. split; [reflexivity|]. vm_compute. reflexivity. Qed.

(** Claim C2 (as amended).  [isDisabledIngress] holds exactly when the
    engine's disabled annotation is present and non-empty AND the class,
    from the spec field or the class annotation, is the disabled marker
    class: a conjunction, not a disjunction. *)
Theorem isDisabledIngress_iff K ing :
  isDisabledIngress K ing = true <->
  ann_get (ing_annotations ing) (IngressDisabledAnnotation K) <> ""%string /\
  (ing_class_name ing = Some (DisabledIngressClassName K) \/
   ann_get (ing_annotations ing) (IngressClassAnnotation K) = DisabledIngressClassName K).
Proof.
  unfold isDisabledIngress.
  destruct (String.eqb_spec (ann_get (ing_annotations ing) (IngressDisabledAnnotation K)) "")
    as [Hd|Hd].
  - split; [discriminate|]. intros [? _]. done.
  - destruct (ing_class_name ing) as [c|] eqn:Hc.
    + destruct (String.eqb_spec c (DisabledIngressClassName K)) as [->|Hne].
      * split; [intros _; split; [done|by left]|done].
      * destruct (String.eqb_spec (ann_get (ing_annotations ing) (IngressClassAnnotation K))
                    (DisabledIngressClassName K)) as [Ha|Ha].
        -- split; [intros _; split; [done|by right]|done].
        -- split; [discriminate|]. intros [_ [[= ?]|?]]; done.
    + destruct (String.eqb_spec (ann_get (ing_annotations ing) (IngressClassAnnotation K))
                  (DisabledIngressClassName K)) as [Ha|Ha].
      * split; [intros _; split; [done|by right]|done].
      * split; [discriminate|]. intros [_ [?|?]]; done.
Qed.

(** Claim C2 (counterexample).  The disjunction stated by the claim fails:
    a declaration carrying the disabled annotation but no disabled class is
    not disabled. *)
Lemma isDisabledIngress_not_disjunction :
  ~ (forall K ing,
       isDisabledIngress K ing = true <->
       (ing_class_name ing = Some (DisabledIngressClassName K) \/
        ann_get (ing_annotations ing) (IngressClassAnnotation K) = DisabledIngressClassName K \/
        ann_get (ing_annotations ing) (IngressDisabledAnnotation K) <> ""%string)).
Proof.
  intros H.
  specialize (H sample_consts
    {| ing_namespace := "default"; ing_name := "web"; ing_class_name := None;
       ing_annotations := {[ "ingress-doperator.fiction.si/disabled"%string := "normal"%string ]};
       ing_rule_hosts := [] |}).
  destruct H as [_ H]. vm_compute in H.
  discriminate H. right; right. discriminate.
Qed.

(** Claim C3.  [shouldDeleteIngress] is false without a (non-empty)
    disabled annotation; false for the external-dns (hostname-disable)
    reason when neither shadow annotation of the hostname dimension
    (original hostname, original hostname source) is present; and true only
    for one of the two known reasons, the external-dns one with a shadow
    hostname annotation present. *)
Theorem shouldDeleteIngress_spec K ing
    (HK : IngressDisabledReasonNormal K <> IngressDisabledReasonExternalDNS K) :
  let annotations := ing_annotations ing in
  let disabledValue := ann_get annotations (IngressDisabledAnnotation K) in
  (disabledValue = ""%string -> shouldDeleteIngress K ing = false) /\
  (disabledValue = IngressDisabledReasonExternalDNS K ->
   annotations !! OriginalExternalDNSHostname K = None ->
   annotations !! OriginalExternalDNSIngressHostnameSource K = None ->
   shouldDeleteIngress K ing = false) /\
  (shouldDeleteIngress K ing = true ->
   (disabledValue = IngressDisabledReasonNormal K \/
    disabledValue = IngressDisabledReasonExternalDNS K) /\
   (disabledValue = IngressDisabledReasonExternalDNS K ->
    is_Some (annotations !! OriginalExternalDNSHostname K) \/
    is_Some (annotations !! OriginalExternalDNSIngressHostnameSource K))).
Proof.
  cbv zeta. unfold shouldDeleteIngress.
  set (v := ann_get (ing_annotations ing) (IngressDisabledAnnotation K)).
  split; [|split].
  - intros ->. reflexivity.
  - intros -> Hoh Hos.
    destruct (String.eqb_spec (IngressDisabledReasonExternalDNS K) ""); [done|].
    destruct (String.eqb_spec (IngressDisabledReasonExternalDNS K)
                (IngressDisabledReasonNormal K)); [congruence|].
    rewrite String.eqb_refl, Hoh, Hos.
    destruct (String.eqb _ ""); reflexivity.
  - destruct (String.eqb_spec v ""); [discriminate|].
    destruct (String.eqb_spec v (IngressDisabledReasonNormal K)) as [Hn|Hn].
    + intros _. split; [by left|]. intros He. congruence.
    + destruct (String.eqb_spec v (IngressDisabledReasonExternalDNS K)) as [He|He];
        [|discriminate].
      intros Hs. split; [by right|]. intros _.
      destruct (String.eqb _ ""); [discriminate|].
      case_bool_decide; [by left|]. case_bool_decide; [by right|discriminate].
Qed.

(** Claim C3 (witness). *)
Lemma shouldDeleteIngress_spec_witness :
  IngressDisabledReasonNormal sample_consts <> IngressDisabledReasonExternalDNS sample_consts /\
  (ann_get (ing_annotations c1_ingress) (IngressDisabledAnnotation sample_consts)
     = IngressDisabledReasonNormal sample_consts \/
   ann_get (ing_annotations c1_ingress) (IngressDisabledAnnotation sample_consts)
     = IngressDisabledReasonExternalDNS sample_consts).
Proof.
  assert (HK : IngressDisabledReasonNormal sample_consts <>
               IngressDisabledReasonExternalDNS sample_consts) by discriminate.
  split; [exact HK|].
  destruct (shouldDeleteIngress_spec sample_consts c1_ingress HK) as (_ & _ & H3).
  apply H3. vm_compute. reflexivity.
Defined.

(** Claim C4.  [CanUpdateResource] answers (true, nil) on not-found,
    (false, err) on any other fetch failure, and on a fetched object
    (true, nil) when it carries the ownership annotation with the expected
    value and (false, nil), never an error, otherwise. *)
Theorem CanUpdateResource_spec :
  CanUpdateResource (Err ErrNotFound) = (true, None) /\
  (forall e, IsNotFound e = false -> CanUpdateResource (Err e) = (false, Some e)) /\
  (forall obj, obj_annotations obj !! ManagedByAnnotation = Some ManagedByValue ->
     CanUpdateResource (Ok obj) = (true, None)) /\
  (forall obj, obj_annotations obj !! ManagedByAnnotation <> Some ManagedByValue ->
     CanUpdateResource (Ok obj) = (false, None)).
Proof.
  split; [reflexivity|]. split; [|split].
  - intros e He. simpl. by rewrite He.
  - intros obj Ho. unfold CanUpdateResource, IsManagedByUs, ann_get.
    rewrite Ho. reflexivity.
  - intros obj Ho. unfold CanUpdateResource, IsManagedByUs, ann_get.
    destruct (String.eqb_spec (default "" (obj_annotations obj !! ManagedByAnnotation))
                ManagedByValue) as [Heq|]; [|done].
    exfalso. apply Ho.
    destruct (obj_annotations obj !! ManagedByAnnotation); simpl in Heq;
      [by rewrite Heq|discriminate].
Qed.

(** Claim C9.  The restore operation issues no update when neither
    requested dimension changes the declaration: every update it returns
    differs from the live declaration.  Its only caller, the re-enabler,
    passes [disabled && restoreClass], so the class dimension is only
    requested for a declaration that [isDisabledIngress] accepts; the
    annotation keys are pairwise distinct. *)
Theorem restoreIngressState_writes_only_changes K ing restoreClass restoreExternalDNS
    (HK : consts_wf K)
    (Hcaller : restoreClass = true -> isDisabledIngress K ing = true) :
  forall updated, restoreIngressState K ing restoreClass restoreExternalDNS = Some updated ->
  updated <> ing.
Proof.
  intros updated Hu. unfold restoreIngressState in Hu.
  destruct restoreClass.
  - (* the disabled annotation is non-empty and is deleted *)
    specialize (Hcaller eq_refl). apply isDisabledIngress_iff in Hcaller as [Hd _].
    destruct (consts_wf_disabled_neq K HK) as (N1 & N2 & N3 & N4 & N5 & N6).
    destruct (restore_class K ing (ing_annotations ing)) as [[cls a1] m1] eqn:Hrc.
    assert (Ha1 : a1 !! IngressDisabledAnnotation K = None /\ m1 = true).
    { unfold restore_class in Hrc. injection Hrc as _ <- <-. split; [|done].
      rewrite lookup_delete_ne by congruence. rewrite lookup_delete_ne by congruence.
      by rewrite lookup_delete_eq. }
    destruct Ha1 as [Ha1 ->].
    assert (Hfin : ing_annotations updated !! IngressDisabledAnnotation K = None).
    { destruct restoreExternalDNS.
      - destruct (restore_external_dns K a1 true) as [a2 m2] eqn:Hr.
        destruct m2; [|discriminate]. injection Hu as <-. simpl.
        replace a2 with (fst (restore_external_dns K a1 true)) by (by rewrite Hr).
        rewrite restore_external_dns_lookup_other by congruence. exact Ha1.
      - injection Hu as <-. exact Ha1. }
    intros ->. unfold ann_get in Hd. rewrite Hfin in Hd. done.
  - destruct restoreExternalDNS; [|discriminate].
    destruct (restore_external_dns K (ing_annotations ing) false) as [a2 m2] eqn:Hr.
    destruct m2; [|discriminate]. injection Hu as <-.
    apply (restore_external_dns_changes K _ _ HK) in Hr.
    intros Heq. apply Hr. rewrite <- Heq. reflexivity.
Qed.

(** Claim C9 (witness). *)
Lemma restoreIngressState_writes_only_changes_witness :
  consts_wf sample_consts /\
  (true = true -> isDisabledIngress sample_consts c1_ingress = true) /\
  exists updated, restoreIngressState sample_consts c1_ingress true true = Some updated /\
                  updated <> c1_ingress.
Proof.
  assert (HK := sample_consts_wf).
  assert (Hc : true = true -> isDisabledIngress sample_consts c1_ingress = true)
    by (intros _; vm_compute; reflexivity).
  split; [exact HK|]. split; [exact Hc|].
  eexists. split; [vm_compute; reflexivity|].
  apply (restoreIngressState_writes_only_changes sample_consts c1_ingress true true HK Hc).
  vm_compute. reflexivity.
Defined.

(** Claim C7 (as amended).  For a shard count below 2^32 and a save that
    succeeds, loading returns exactly the saved map when every entry is
    within the retention window, has a version token without ['|'] and an
    int64 timestamp; an entry whose version token contains ['|'] is not
    loaded back; and, whatever the store holds, no loaded entry is older
    than the retention window. *)
Theorem load_save_roundtrip :
  (forall st base N now (M : gmap string ReconcileCacheEntry) st',
     N < 2^32 ->
     SaveReconcileCacheSharded st base N M = Ok st' ->
     (forall k e, M !! k = Some e ->
        has_char "|"%char (ResourceVersion e) = false /\ int64_range (UpdatedAtUnix e) /\
        now - ReconcileCacheTTL <= UpdatedAtUnix e) ->
     LoadReconcileCacheSharded st' base N now = Ok M) /\
  (forall st base N now (M : gmap string ReconcileCacheEntry) st' R k e,
     N < 2^32 ->
     SaveReconcileCacheSharded st base N M = Ok st' ->
     LoadReconcileCacheSharded st' base N now = Ok R ->
     M !! k = Some e -> has_char "|"%char (ResourceVersion e) = true ->
     R !! k = None) /\
  (forall st base N now R,
     LoadReconcileCacheSharded st base N now = Ok R ->
     forall k e, R !! k = Some e -> now - ReconcileCacheTTL <= UpdatedAtUnix e).
Proof.
  split; [|split; [|exact load_fresh]].
  2:{ intros st base N now M st' R k e HN Hsave Hload Hk Hbar.
      rewrite (load_after_save st base N now M st' HN Hsave) in Hload.
      injection Hload as <-. rewrite lookup_omap, Hk. simpl.
      destruct (parse_format_entry_bar e Hbar) as [_ Hnone].
      unfold load_entry. by rewrite Hnone. }
  intros st base N now M st' HN Hsave HM.
  rewrite (load_after_save st base N now M st' HN Hsave). f_equal.
  apply map_eq. intros k. rewrite lookup_omap.
  destruct (M !! k) as [e|] eqn:Hk; simpl; [|done].
  destruct (HM k e Hk) as (Hbar & Hts & Hwin).
  unfold load_entry. rewrite parse_format_entry by done.
  destruct (UpdatedAtUnix e <? now - ReconcileCacheTTL) eqn:Hlt; [|done].
  apply Z.ltb_lt in Hlt. lia.
Qed.

(** Claim C7 (witness). *)
Lemma load_save_roundtrip_witness :
  SaveReconcileCacheSharded empty_store "c" 16 c7_entries
    = Ok (store_of (SaveReconcileCacheSharded empty_store "c" 16 c7_entries)) /\
  LoadReconcileCacheSharded (store_of (SaveReconcileCacheSharded empty_store "c" 16 c7_entries))
    "c" 16 2000 = Ok c7_entries.
Proof.
  assert (Hs : SaveReconcileCacheSharded empty_store "c" 16 c7_entries
    = Ok (store_of (SaveReconcileCacheSharded empty_store "c" 16 c7_entries)))
    by (vm_compute; reflexivity).
  split; [exact Hs|].
  apply (proj1 load_save_roundtrip empty_store "c" 16 2000 c7_entries _); [lia|exact Hs|].
  intros k e Hk. unfold c7_entries in Hk. apply lookup_singleton_Some in Hk as [_ <-].
  split; [reflexivity|]. split; unfold int64_range, ReconcileCacheTTL; simpl; lia.
Defined.

(** An entry within the retention window whose version token contains
    ['|'] is saved but not loaded back. *)
Lemma load_save_drops_bar_token :
  SaveReconcileCacheSharded empty_store "c" 16 c7_bar_entries
    = Ok (store_of (SaveReconcileCacheSharded empty_store "c" 16 c7_bar_entries)) /\
  LoadReconcileCacheSharded (store_of (SaveReconcileCacheSharded empty_store "c" 16 c7_bar_entries))
    "c" 16 2000 = Ok ∅.
Proof. split; vm_compute; reflexivity. Qed.

(** Claim C8.  For a shard count N with 0 < N < 2^32 the shard of a key
    is [fnv32a key mod N].  For every count N > 1 the count is first
    truncated to 32 bits: the shard is [fnv32a key mod (N mod 2^32)], and
    when [N mod 2^32 = 0] the modulo by zero panics ([None]); so for
    N >= 2^32 the shard is not [fnv32a key mod N] in general.  A shard
    count N <= 0 is normalised to 1, where every key goes to shard 0, and
    saving or loading with N behaves as with 1. *)
Theorem reconcileCacheShardForKey_spec :
  (forall key N, 0 < N < 2^32 -> reconcileCacheShardForKey key N = Some (fnv32a key mod N)) /\
  (forall key N, 1 < N ->
     reconcileCacheShardForKey key N =
       if N mod 2^32 =? 0 then None else Some (fnv32a key mod (N mod 2^32))) /\
  (forall N, N <= 0 ->
     normalize_shard_count N = 1 /\
     (forall key, reconcileCacheShardForKey key (normalize_shard_count N) = Some 0) /\
     (forall st base M, SaveReconcileCacheSharded st base N M = SaveReconcileCacheSharded st base 1 M) /\
     (forall st base now, LoadReconcileCacheSharded st base N now = LoadReconcileCacheSharded st base 1 now)).
Proof.
  split; [|split].
  - intros key N HN. rewrite reconcileCacheShardForKey_small by lia.
    destruct (N <=? 1) eqn:H1; [|done].
    apply Z.leb_le in H1. replace N with 1 by lia. by rewrite Z.mod_1_r.
  - intros key N HN. unfold reconcileCacheShardForKey.
    destruct (N <=? 1) eqn:H1; [apply Z.leb_le in H1; lia|]. reflexivity.
  - intros N HN. pose proof (normalize_shard_count_nonpos N HN) as Hn.
    split; [exact Hn|]. split; [|split].
    + intros key. rewrite Hn. reflexivity.
    + intros st base M. unfold SaveReconcileCacheSharded. by rewrite Hn.
    + intros st base now. unfold LoadReconcileCacheSharded. by rewrite Hn.
Qed.

(** Claim C8 (witness). *)
Lemma reconcileCacheShardForKey_spec_witness :
  reconcileCacheShardForKey "a" 16 = Some (fnv32a "a" mod 16) /\
  reconcileCacheShardForKey "a" (2^32 + 2) =
    (if (2^32 + 2) mod 2^32 =? 0 then None else Some (fnv32a "a" mod ((2^32 + 2) mod 2^32))) /\
  normalize_shard_count (-3) = 1.
Proof.
  split; [|split].
  - apply (proj1 reconcileCacheShardForKey_spec "a" 16). lia.
  - apply (proj1 (proj2 reconcileCacheShardForKey_spec) "a" (2^32 + 2)). lia.
  - destruct (proj2 (proj2 reconcileCacheShardForKey_spec) (-3) ltac:(lia)) as [H _]. exact H.
Defined.

(** The count is truncated to 32 bits first: for N = 2^32 + 2 the shard
    is [fnv32a key mod 2], not [fnv32a key mod N]. *)
Lemma reconcileCacheShardForKey_truncates :
  reconcileCacheShardForKey "a" (2^32 + 2) = Some 0 /\
  fnv32a "a" mod (2^32 + 2) = 3826002220.
Proof. split; vm_compute; reflexivity. Qed.

(** Claim C10.  A version token without ['|'] survives format then parse
    unchanged; with a ['|'] the serialised entry splits into more than two
    fields, does not parse, and the entry is missing after a save and a
    load even when it is within the retention window. *)
Theorem format_parse_entry :
  (forall e, has_char "|"%char (ResourceVersion e) = false -> int64_range (UpdatedAtUnix e) ->
     parseReconcileCacheEntry (formatReconcileCacheEntry e) = Some e) /\
  (forall e, has_char "|"%char (ResourceVersion e) = true ->
     (2 < length (Split (formatReconcileCacheEntry e) "|"%char))%nat /\
     parseReconcileCacheEntry (formatReconcileCacheEntry e) = None /\
     (forall st base N now (M : gmap string ReconcileCacheEntry) k st' R,
        N < 2^32 -> M !! k = Some e ->
        SaveReconcileCacheSharded st base N M = Ok st' ->
        LoadReconcileCacheSharded st' base N now = Ok R ->
        R !! k = None)).
Proof.
  split; [exact parse_format_entry|].
  intros e Hbar. destruct (parse_format_entry_bar e Hbar) as [Hlen Hnone].
  split; [exact Hlen|]. split; [exact Hnone|].
  intros st base N now M k st' R HN Hk Hsave Hload.
  rewrite (load_after_save st base N now M st' HN Hsave) in Hload.
  injection Hload as <-. rewrite lookup_omap, Hk. simpl.
  unfold load_entry. by rewrite Hnone.
Qed.

(** Claim C10 (witness). *)
Lemma format_parse_entry_witness :
  parseReconcileCacheEntry
    (formatReconcileCacheEntry {| ResourceVersion := "42"; UpdatedAtUnix := 1000 |})
  = Some {| ResourceVersion := "42"; UpdatedAtUnix := 1000 |} /\
  parseReconcileCacheEntry
    (formatReconcileCacheEntry {| ResourceVersion := "a|b"; UpdatedAtUnix := 1000 |}) = None.
Proof.
  split.
  - apply (proj1 format_parse_entry); [reflexivity|unfold int64_range; simpl; lia].
  - apply (proj2 format_parse_entry); reflexivity.
Defined.

(** Claim C6 (as amended).  Merging a value A with itself: the overwrite
    policy (an [ingress-doperator.fiction.si/] key other than the two
    special ones) gives A; the comma policy gives A when A is empty and
    otherwise the comma-join of A's trimmed non-empty tokens, de-duplicated
    in first-seen order (so A itself exactly when A is in that normal
    form); the certificate-mismatch policy gives A when A is empty and
    otherwise a ["; "]-join of A's distinct trimmed non-empty records, in
    any order. *)
Theorem merge_annotation_self :
  (forall T k a out,
     k <> MismatchedCertAnnotation T -> k <> SourceAnnotation T ->
     HasPrefix k doperator_prefix = true ->
     merge_annotation T k a a out <-> out = a) /\
  (forall a, MergeAnnotationValues a a =
             if String.eqb a "" then a else Join (comma_tokens a) ",") /\
  (forall a, a = Join (comma_tokens a) "," -> MergeAnnotationValues a a = a) /\
  (forall a out, MergeCertificateMismatchAnnotation a a out <->
     if String.eqb a "" then out = a
     else exists values, values ≡ₚ elements (cert_set a) /\ out = Join values "; ").
Proof.
  split; [|split; [|split]].
  - intros T k a out H1 H2 H3. unfold merge_annotation.
    rewrite (proj2 (String.eqb_neq _ _) H1), (proj2 (String.eqb_neq _ _) H2), H3.
    reflexivity.
  - exact MergeAnnotationValues_self.
  - intros a Ha. rewrite MergeAnnotationValues_self.
    destruct (String.eqb a ""); [done|]. by rewrite <- Ha.
  - intros a out. unfold MergeCertificateMismatchAnnotation.
    destruct (String.eqb a ""); [done|]. by rewrite cert_values_self.
Qed.

(** Claim C6 (witness). *)
Lemma merge_annotation_self_witness :
  merge_annotation sample_translator "ingress-doperator.fiction.si/disabled" "x" "x" "x" /\
  MergeAnnotationValues "a,b" "a,b" = "a,b"%string.
Proof.
  split.
  - apply (proj1 (proj1 merge_annotation_self sample_translator
             "ingress-doperator.fiction.si/disabled" "x" "x"
             ltac:(discriminate) ltac:(discriminate) ltac:(reflexivity))).
    reflexivity.
  - apply (proj1 (proj2 (proj2 merge_annotation_self)) "a,b"). vm_compute. reflexivity.
Defined.

(** Claim C6 (counterexample).  A comma-separated value with a space after
    the comma is not returned unchanged when merged with itself. *)
Lemma MergeAnnotationValues_self_not_identity :
  MergeAnnotationValues "a, b" "a, b" = "a,b"%string /\ "a,b"%string <> "a, b"%string.
Proof. split; [vm_compute; reflexivity|discriminate]. Qed.

(** Claim C5 (as amended).  Merging a declaration's listeners into a
    Gateway and then removing that declaration's listeners gives back the
    Gateway's listeners, up to order, when the Gateway's listener names are
    unique and none of them is one of the declaration's transformed
    hostnames, and every listener of the merged-in spec is named by one of
    them.  Without the second condition the round trip is not the identity:
    an original listener named after one of the declaration's transformed
    hostnames is removed, so the listeners left are not the original ones. *)
Theorem merge_then_remove_listeners :
  (forall T TransformHostname gw desired ing res,
    NoDup (ln_name <$> gw_listeners gw) ->
    (forall l, l ∈ gw_listeners gw ->
       ln_name l ∉ map TransformHostname
                     (filter (fun h => negb (String.eqb h "")) (ing_rule_hosts ing))) ->
    (forall l, l ∈ gw_listeners desired ->
       ln_name l ∈ map TransformHostname
                     (filter (fun h => negb (String.eqb h "")) (ing_rule_hosts ing))) ->
    MergeGatewaySpec T gw desired res ->
    gw_listeners (RemoveIngressListeners T TransformHostname res ing) ≡ₚ gw_listeners gw) /\
  (forall T TransformHostname gw desired ing res l,
    MergeGatewaySpec T gw desired res ->
    l ∈ gw_listeners gw ->
    ln_name l ∈ map TransformHostname
                  (filter (fun h => negb (String.eqb h "")) (ing_rule_hosts ing)) ->
    (l ∉ gw_listeners (RemoveIngressListeners T TransformHostname res ing)) /\
    ~ (gw_listeners (RemoveIngressListeners T TransformHostname res ing) ≡ₚ gw_listeners gw)).
Proof.
  split.
  2:{ intros T TransformHostname gw desired ing res l _ Hl Hn.
      assert (Hout : l ∉ gw_listeners (RemoveIngressListeners T TransformHostname res ing)).
      { unfold RemoveIngressListeners. simpl. rewrite list_elem_of_filter.
        intros [Hp _]. revert Hp. rewrite bool_decide_eq_true_2; [done|].
        apply elem_of_list_to_set. exact Hn. }
      split; [exact Hout|]. intros Hp. apply Hout. rewrite Hp. exact Hl. }
  intros T TransformHostname gw desired ing res Hnd Hold Hnew.
  intros (_ & _ & _ & _ & Hl). unfold RemoveIngressListeners. simpl.
  set (hs := map TransformHostname
               (filter (fun h => negb (String.eqb h "")) (ing_rule_hosts ing))) in *.
  set (E := fold_left (fun (m : gmap string Listener) l => <[ln_name l := l]> m)
              (gw_listeners gw) ∅).
  set (Mg := merged_listeners gw desired).
  assert (HMg : forall k, k ∉ hs -> Mg !! k = E !! k).
  { intros k Hk. apply fold_ins_notin. intros x Hx Heq. apply Hk. rewrite <- Heq. by apply Hnew. }
  rewrite Hl. apply NoDup_Permutation.
  - apply NoDup_filter. apply (NoDup_fmap_1 ln_name).
    rewrite fmap_name_snd; [apply NoDup_fst_map_to_list|].
    intros k v Hkv. apply elem_of_map_to_list in Hkv. exact (merged_listeners_names _ _ _ _ Hkv).
  - exact (NoDup_fmap_1 _ _ Hnd).
  - intros x. rewrite list_elem_of_filter, list_elem_of_fmap. split.
    + intros [Hp [[k v] [-> Hkv]]]. simpl in Hp |- *.
      apply elem_of_map_to_list in Hkv.
      pose proof (merged_listeners_names _ _ _ _ Hkv) as <-.
      assert (Hn : ln_name v ∉ hs).
      { intros Hin. revert Hp. rewrite bool_decide_eq_true_2; [done|].
        apply elem_of_list_to_set. exact Hin. }
      fold Mg in Hkv. rewrite HMg in Hkv by exact Hn.
      destruct (fold_ins_some _ _ _ _ Hkv) as [[Hx _]|He]; [exact Hx|].
      by rewrite lookup_empty in He.
    + intros Hx. pose proof (Hold x Hx) as Hn. split.
      * rewrite bool_decide_eq_false_2; [done|].
        rewrite elem_of_list_to_set. exact Hn.
      * exists (ln_name x, x). split; [done|]. apply elem_of_map_to_list.
        fold Mg. rewrite HMg by exact Hn. by apply fold_ins_in.
Qed.

(** Claim C5 (witness). *)
Lemma merge_then_remove_listeners_witness :
  gw_listeners (RemoveIngressListeners sample_translator (fun h => h)
     (merge_outcome (mk_gateway [mk_listener "b.example.com"])
                    (mk_gateway [mk_listener "a.example.com"]))
     (mk_ingress ["a.example.com"%string]))
  ≡ₚ gw_listeners (mk_gateway [mk_listener "b.example.com"]) /\
  ~ (gw_listeners (RemoveIngressListeners sample_translator (fun h => h)
       (merge_outcome (mk_gateway [mk_listener "a.example.com"])
                      (mk_gateway [mk_listener "a.example.com"]))
       (mk_ingress ["a.example.com"%string]))
     ≡ₚ gw_listeners (mk_gateway [mk_listener "a.example.com"])).
Proof.
  split.
  2:{ refine (proj2 (proj2 merge_then_remove_listeners sample_translator (fun h => h)
               (mk_gateway [mk_listener "a.example.com"]) (mk_gateway [mk_listener "a.example.com"])
               (mk_ingress ["a.example.com"%string])
               (merge_outcome (mk_gateway [mk_listener "a.example.com"])
                              (mk_gateway [mk_listener "a.example.com"]))
               (mk_listener "a.example.com") _ _ _)).
      - split; [intros k _; reflexivity|]. split.
        { intros k v Hk. simpl in Hk. by rewrite lookup_empty in Hk. }
        split; [reflexivity|]. split; reflexivity.
      - simpl. left.
      - simpl. left. }
  apply (proj1 merge_then_remove_listeners sample_translator (fun h => h)
           (mk_gateway [mk_listener "b.example.com"]) (mk_gateway [mk_listener "a.example.com"])
           (mk_ingress ["a.example.com"%string])).
  - apply NoDup_singleton.
  - intros l Hl. apply list_elem_of_singleton in Hl as ->. simpl.
    intros Hin. apply list_elem_of_singleton in Hin. discriminate.
  - intros l Hl. apply list_elem_of_singleton in Hl as ->. simpl. left.
  - split; [intros k _; reflexivity|]. split.
    { intros k v Hk. simpl in Hk. by rewrite lookup_empty in Hk. }
    split; [reflexivity|]. split; reflexivity.
Defined.

(** Claim C5 (counterexample).  A Gateway that already has the listener of
    the declaration's host loses it in the round trip: whatever order the
    merge produces, the listeners left after the removal are not the
    original ones. *)
Lemma merge_then_remove_loses_listener :
  MergeGatewaySpec sample_translator (mk_gateway [mk_listener "a.example.com"])
    (mk_gateway [mk_listener "a.example.com"])
    (merge_outcome (mk_gateway [mk_listener "a.example.com"])
                   (mk_gateway [mk_listener "a.example.com"])) /\
  forall res,
    MergeGatewaySpec sample_translator (mk_gateway [mk_listener "a.example.com"])
      (mk_gateway [mk_listener "a.example.com"]) res ->
    ~ gw_listeners (RemoveIngressListeners sample_translator (fun h => h) res
                      (mk_ingress ["a.example.com"%string]))
      ≡ₚ gw_listeners (mk_gateway [mk_listener "a.example.com"]).
Proof.
  split.
  - split; [intros k _; reflexivity|]. split.
    { intros k v Hk. simpl in Hk. by rewrite lookup_empty in Hk. }
    split; [reflexivity|]. split; reflexivity.
  - intros res (_ & _ & _ & _ & Hl) Hp. unfold RemoveIngressListeners in Hp. simpl in Hp.
    rewrite Hl in Hp. vm_compute in Hp.
    apply Permutation_length in Hp. discriminate.
Qed.

(* ================================================================== *)
(** * Further lemmas: trimming, splitting and joining                  *)
(* ================================================================== *)

Lemma trim_left_idem s : trim_left (trim_left s) = trim_left s.
Proof.
  induction s as [|c r IH]; simpl; [done|].
  destruct (is_space c) eqn:Hc; [exact IH|]. simpl. by rewrite Hc.
Qed.

(** [trim_left] leaves nothing or a string that starts with a non-space. *)
Lemma trim_left_head s :
  trim_left s = EmptyString \/ exists c r, trim_left s = String c r /\ is_space c = false.
Proof.
  induction s as [|c r IH]; simpl; [by left|].
  destruct (is_space c) eqn:Hc; [exact IH|]. right. by exists c, r.
Qed.

Lemma trim_right_idem s : trim_right (trim_right s) = trim_right s.
Proof.
  induction s as [|c r IH]; simpl; [done|].
  destruct (is_space c && String.eqb (trim_right r) EmptyString) eqn:Hc; [done|].
  simpl. rewrite IH, Hc. reflexivity.
Qed.

Lemma trim_right_nonspace c r :
  is_space c = false -> trim_right (String c r) = String c (trim_right r).
Proof. intros Hc. simpl. by rewrite Hc. Qed.

Lemma TrimSpace_idem s : TrimSpace (TrimSpace s) = TrimSpace s.
Proof.
  unfold TrimSpace.
  destruct (trim_left_head s) as [->|(c & r & -> & Hc)]; [done|].
  rewrite trim_right_nonspace by done. cbn [trim_left]. rewrite Hc.
  rewrite trim_right_nonspace by done. by rewrite trim_right_idem.
Qed.

Lemma TrimSpace_space_app s : TrimSpace (String " "%char s) = TrimSpace s.
Proof. reflexivity. Qed.

(** A byte the input does not hold is not in its trimmed form. *)
Lemma has_char_trim_left c s : has_char c s = false -> has_char c (trim_left s) = false.
Proof.
  induction s as [|d r IH]; simpl; [done|]. intros H.
  apply orb_false_iff in H as [Hd Hr]. destruct (is_space d); [by apply IH|].
  simpl. by rewrite Hd, Hr.
Qed.

Lemma has_char_trim_right c s : has_char c s = false -> has_char c (trim_right s) = false.
Proof.
  induction s as [|d r IH]; simpl; [done|]. intros H.
  apply orb_false_iff in H as [Hd Hr].
  destruct (is_space d && String.eqb (trim_right r) EmptyString); [done|].
  simpl. by rewrite Hd, IH.
Qed.

Lemma has_char_TrimSpace c s : has_char c s = false -> has_char c (TrimSpace s) = false.
Proof. intros H. by apply has_char_trim_right, has_char_trim_left. Qed.

(** No field of [Split s sep] holds [sep]. *)
Lemma Split_fields_no_sep s sep x : x ∈ Split s sep -> has_char sep x = false.
Proof.
  revert x. induction s as [|c r IH]; intros x; simpl.
  - intros Hx. apply list_elem_of_singleton in Hx as ->. done.
  - destruct (Ascii.eqb c sep) eqn:Hc.
    + intros Hx. apply elem_of_cons in Hx as [->|Hx]; [done|]. by apply IH.
    + destruct (Split r sep) as [|h t] eqn:Hs.
      * intros Hx. apply list_elem_of_singleton in Hx as ->. simpl. by rewrite Hc.
      * intros Hx. apply elem_of_cons in Hx as [->|Hx].
        -- simpl. rewrite Hc. apply IH. left.
        -- apply IH. by right.
Qed.

(** Splitting a string that starts with a separator-free part. *)
Lemma Split_app_nosep a b sep :
  has_char sep a = false ->
  Split (a ++ b)%string sep = match Split b sep with
                       | h :: t => (a ++ h)%string :: t
                       | [] => [a]
                       end.
Proof.
  induction a as [|c r IH]; simpl; intros H.
  - change ((EmptyString ++ b)%string) with b.
    pose proof (Split_not_nil b sep). destruct (Split b sep) as [|h t]; [done|].
    reflexivity.
  - apply orb_false_iff in H as [Hc Hr]. rewrite Hc, IH by done.
    destruct (Split b sep); reflexivity.
Qed.

(** [Split] undoes [Join] with a separator that starts with the split
    byte and holds it nowhere else, up to the rest of the separator
    prefixed to every later field. *)
Lemma Split_Join x xs sep rest :
  has_char sep rest = false -> Forall (fun y => has_char sep y = false) (x :: xs) ->
  Split (Join (x :: xs) (String sep rest)) sep = x :: map (fun y => (rest ++ y)%string) xs.
Proof.
  revert x. induction xs as [|y ys IH]; intros x Hrest Hall.
  - simpl. apply Forall_cons in Hall as [Hx _]. by apply Split_no_sep.
  - apply Forall_cons in Hall as [Hx Hall].
    change (Join (x :: y :: ys) (String sep rest))
      with (String.append x (String sep (String.append rest (Join (y :: ys) (String sep rest))))).
    rewrite Split_app_sep by done. f_equal.
    rewrite Split_app_nosep by done. rewrite IH by done. reflexivity.
Qed.

Lemma Join_empty_iff xs sep :
  Join xs sep = EmptyString -> Forall (fun y => y = EmptyString) xs.
Proof.
  induction xs as [|x [|y ys] IH]; simpl; intros H; [done|by constructor|].
  destruct x; [|discriminate]. constructor; [done|]. apply IH.
  destruct sep; [exact H|discriminate].
Qed.

(* ------------------------------------------------------------------ *)
(** ** ReplaceAll and ReconcileCacheKey                                 *)
(* ------------------------------------------------------------------ *)

Lemma append_cons_str d r b :
  String.append (String d r) b = String d (String.append r b).
Proof. reflexivity. Qed.

Lemma has_char_app c a b :
  has_char c (String.append a b) = has_char c a || has_char c b.
Proof.
  induction a as [|d r IH]; [reflexivity|]. rewrite append_cons_str.
  cbn [has_char]. rewrite IH. by rewrite orb_assoc.
Qed.

Lemma ReplaceAll_no_old s old new :
  has_char old new = false -> has_char old (ReplaceAll s old new) = false.
Proof.
  intros Hn. induction s as [|c r IH]; simpl; [done|].
  destruct (Ascii.eqb c old) eqn:Hc.
  - rewrite has_char_app, Hn, IH. reflexivity.
  - simpl. by rewrite Hc, IH.
Qed.

Lemma ReplaceAll_absent s old new : has_char old s = false -> ReplaceAll s old new = s.
Proof.
  induction s as [|c r IH]; simpl; [done|]. intros H.
  apply orb_false_iff in H as [Hc Hr]. by rewrite Hc, IH.
Qed.

Lemma ReplaceAll_empty s old new : ReplaceAll s old new = EmptyString -> new = EmptyString \/ s = EmptyString.
Proof.
  destruct s as [|c r]; [by right|]. simpl.
  destruct (Ascii.eqb c old); [|discriminate].
  destruct new; [by left|discriminate].
Qed.

(** Replacing '/' by "__" commutes with trimming: neither byte is a space. *)
Lemma ReplaceAll_cons_other c r old new :
  c <> old -> ReplaceAll (String c r) old new = String c (ReplaceAll r old new).
Proof. intros Hc. cbn [ReplaceAll]. by destruct (Ascii.eqb_spec c old). Qed.

Lemma is_space_slash : is_space "/"%char = false.
Proof. reflexivity. Qed.

Lemma trim_left_ReplaceAll s :
  trim_left (ReplaceAll s "/"%char "__") = ReplaceAll (trim_left s) "/"%char "__".
Proof.
  induction s as [|c r IH]; [done|].
  destruct (Ascii.eqb_spec c "/"%char) as [->|Hc].
  - reflexivity.
  - rewrite ReplaceAll_cons_other by done. cbn [trim_left].
    destruct (is_space c) eqn:Hs; [exact IH|].
    by rewrite ReplaceAll_cons_other.
Qed.

Lemma trim_right_ReplaceAll s :
  trim_right (ReplaceAll s "/"%char "__") = ReplaceAll (trim_right s) "/"%char "__".
Proof.
  induction s as [|c r IH]; [done|].
  destruct (Ascii.eqb_spec c "/"%char) as [->|Hc].
  - change (ReplaceAll (String "/" r) "/" "__")
      with (String "_" (String "_" (ReplaceAll r "/"%char "__"))).
    cbn [trim_right]. rewrite IH. reflexivity.
  - rewrite ReplaceAll_cons_other by done. cbn [trim_right]. rewrite IH.
    assert (Hemp : String.eqb (ReplaceAll (trim_right r) "/" "__") EmptyString
                   = String.eqb (trim_right r) EmptyString).
    { destruct (trim_right r) as [|d t]; [done|]. cbn [ReplaceAll].
      destruct (Ascii.eqb d "/"); reflexivity. }
    rewrite Hemp.
    destruct (is_space c && String.eqb (trim_right r) EmptyString); [done|].
    by rewrite ReplaceAll_cons_other.
Qed.

Lemma TrimSpace_ReplaceAll s :
  TrimSpace (ReplaceAll s "/"%char "__") = ReplaceAll (TrimSpace s) "/"%char "__".
Proof. unfold TrimSpace. by rewrite trim_left_ReplaceAll, trim_right_ReplaceAll. Qed.

(* ================================================================== *)
(** * Further properties of the reconcile cache                        *)
(* ================================================================== *)

Lemma ReconcileCacheKey_eq id : ReconcileCacheKey id = ReplaceAll (TrimSpace id) "/"%char "__".
Proof.
  unfold ReconcileCacheKey.
  destruct (String.eqb_spec (ReplaceAll (TrimSpace id) "/" "__") "") as [->|]; done.
Qed.

Lemma has_char_slash_underscores : has_char "/"%char "__" = false.
Proof. reflexivity. Qed.

(** Property X1.  A reconcile cache key never contains ['/']. *)
Theorem ReconcileCacheKey_no_slash id : has_char "/"%char (ReconcileCacheKey id) = false.
Proof.
  rewrite ReconcileCacheKey_eq. apply ReplaceAll_no_old, has_char_slash_underscores.
Qed.

(** Property X2.  [ReconcileCacheKey] is idempotent: the key of a key is the key itself. *)
Theorem ReconcileCacheKey_idem id :
  ReconcileCacheKey (ReconcileCacheKey id) = ReconcileCacheKey id.
Proof.
  rewrite !ReconcileCacheKey_eq, TrimSpace_ReplaceAll, TrimSpace_idem.
  apply ReplaceAll_absent, ReplaceAll_no_old, has_char_slash_underscores.
Qed.

(** Property X3.  Ids that differ only by ['/'] written as ["__"] share a key: replacing
    every ['/'] of an id by ["__"] does not change its key (so
    ["ns/name"] and ["ns__name"] collide). *)
Theorem ReconcileCacheKey_slash_collision id :
  ReconcileCacheKey (ReplaceAll id "/"%char "__") = ReconcileCacheKey id.
Proof.
  rewrite !ReconcileCacheKey_eq, TrimSpace_ReplaceAll.
  apply ReplaceAll_absent, ReplaceAll_no_old, has_char_slash_underscores.
Qed.

Lemma partition_shards_panic N (M : gmap string ReconcileCacheEntry) :
  (forall k, reconcileCacheShardForKey k N = None) ->
  M <> ∅ -> partition_shards N M = Err ErrPanic.
Proof.
  intros Hn HM. unfold partition_shards.
  match goal with
  | |- map_fold ?f ?b M = _ =>
      enough (Hp : (map_fold f b M = Ok (∅ : gmap Z (gmap string string)) /\ M = ∅) \/
                   map_fold f b M = Err ErrPanic)
        by (destruct Hp as [[_ ?]|?]; done)
  end.
  apply (map_fold_weak_ind
    (fun r (m : gmap string ReconcileCacheEntry) =>
       (r = Ok (∅ : gmap Z (gmap string string)) /\ m = ∅) \/ r = Err ErrPanic)).
  - by left.
  - intros k v m r Hk [[-> _]| ->]; right; rewrite ?Hn; reflexivity.
Qed.

(** Property X4.  A shard count above 1 that is a multiple of 2^32 becomes 0 once
    truncated to uint32: saving any non-empty map then panics on the
    division by zero of [reconcileCacheShardForKey]. *)
Theorem SaveReconcileCacheSharded_panics st base N (M : gmap string ReconcileCacheEntry) :
  1 < N -> N mod 2^32 = 0 -> M <> ∅ ->
  SaveReconcileCacheSharded st base N M = Err ErrPanic.
Proof.
  intros H1 H0 HM. unfold SaveReconcileCacheSharded, normalize_shard_count.
  replace (N <=? 0) with false by (symmetry; apply Z.leb_gt; lia).
  rewrite partition_shards_panic; [reflexivity| |exact HM].
  intros k. unfold reconcileCacheShardForKey.
  replace (N <=? 1) with false by (symmetry; apply Z.leb_gt; lia).
  by rewrite H0.
Qed.

Lemma load_shards_err st base cutoff out idx :
  (exists e, load_shards st base cutoff out idx = Err e) <->
  exists i, i ∈ idx /\ shard_name base i ∈ cm_broken st.
Proof.
  revert out. induction idx as [|i rest IH]; intros out; simpl.
  - split; [intros [e He]; discriminate|]. intros (i & Hi & _). inversion Hi.
  - unfold cm_get. case_bool_decide as Hb.
    + split; [|eauto]. intros _. exists i. split; [left|done].
    + assert (Hr : (exists e, load_shards st base cutoff out rest = Err e \/
                     (exists d, load_shards st base cutoff (load_shard_data cutoff d out) rest = Err e)) <->
                   exists i, i ∈ rest /\ shard_name base i ∈ cm_broken st).
      { split.
        - intros [e [He|[d Hd]]]; [apply (IH out)|apply (IH (load_shard_data cutoff d out))]; eauto.
        - intros Hex. destruct (proj2 (IH out) Hex) as [e He]. eauto. }
      destruct (cm_data st !! shard_name base i) as [d|] eqn:Hd; simpl.
      * rewrite IH. split; [intros (j & Hj & Hjb); exists j; split; [by right|done]|].
        intros (j & Hj & Hjb). apply elem_of_cons in Hj as [->|Hj]; [done|]. eauto.
      * rewrite IH. split; [intros (j & Hj & Hjb); exists j; split; [by right|done]|].
        intros (j & Hj & Hjb). apply elem_of_cons in Hj as [->|Hj]; [done|]. eauto.
Qed.

(** Property X5.  Loading fails exactly when reading one of the shard ConfigMaps fails
    with an error other than not-found; missing ConfigMaps are skipped. *)
Theorem LoadReconcileCacheSharded_fails_iff st base N now :
  (exists e, LoadReconcileCacheSharded st base N now = Err e) <->
  exists i, 0 <= i < normalize_shard_count N /\ shard_name base i ∈ cm_broken st.
Proof.
  unfold LoadReconcileCacheSharded. rewrite load_shards_err.
  split; intros (i & Hi & Hb); exists i; split; try done; by apply elem_of_seqZ in Hi || apply elem_of_seqZ.
Qed.

Lemma write_shards_err st base P idx :
  (exists e, write_shards st base P idx = Err e) <->
  exists i, i ∈ idx /\
    (shard_name base i ∈ cm_broken st \/ shard_name base i ∈ cm_readonly st).
Proof.
  revert st. induction idx as [|i rest IH]; intros st.
  - simpl. split; [intros [e He]; discriminate|]. intros (i & Hi & _). inversion Hi.
  - simpl. unfold cm_get at 1. case_bool_decide as Hb.
    + split; [|eauto]. intros _. exists i. split; [left|by left].
    + destruct (cm_put st (shard_name base i) (P !!! i)) as [st1|e] eqn:Hp.
      * destruct (cm_put_ok _ _ _ _ Hp) as (Hro & _ & Hb1 & Hr1).
        assert (Hiff : (exists e, write_shards st1 base P rest = Err e) <->
                  exists j, j ∈ i :: rest /\
                    (shard_name base j ∈ cm_broken st \/ shard_name base j ∈ cm_readonly st)).
        { rewrite IH, Hb1, Hr1. split; intros (j & Hj & Hjb).
          - exists j. split; [by right|done].
          - exists j. apply elem_of_cons in Hj as [->|Hj]; [by destruct Hjb|done]. }
        destruct (cm_data st !! shard_name base i); exact Hiff.
      * assert (Hro : shard_name base i ∈ cm_readonly st).
        { unfold cm_put in Hp. by case_bool_decide. }
        destruct (cm_data st !! shard_name base i);
          (split; [intros _; exists i; split; [left|by right]|eauto]).
Qed.

(** Property X6.  With a shard count below 2^32, saving fails exactly when,
    for one of the shards, reading its ConfigMap fails with an error other
    than not-found, or creating or updating it fails: a missing ConfigMap
    is created, an existing one is overwritten. *)
Theorem SaveReconcileCacheSharded_fails_iff st base N (M : gmap string ReconcileCacheEntry) :
  N < 2^32 ->
  (exists e, SaveReconcileCacheSharded st base N M = Err e) <->
  exists i, 0 <= i < normalize_shard_count N /\
    (shard_name base i ∈ cm_broken st \/ shard_name base i ∈ cm_readonly st).
Proof.
  intros HN. unfold SaveReconcileCacheSharded.
  set (N' := normalize_shard_count N).
  assert (HN' : 1 <= N' < 2^32).
  { subst N'; unfold normalize_shard_count. destruct (N <=? 0) eqn:E;
      [lia|apply Z.leb_gt in E; lia]. }
  destruct (partition_shards_spec N' (fun k => if N' <=? 1 then 0 else fnv32a k mod N') M)
    as [P [HP _]].
  { intros k. apply reconcileCacheShardForKey_small. lia. }
  rewrite HP. simpl. rewrite write_shards_err.
  split; intros (i & Hi & Hb); exists i; split; try done;
    by apply elem_of_seqZ in Hi || apply elem_of_seqZ.
Qed.


(* ================================================================== *)
(** * Further properties of the re-enabler: restoring an Ingress         *)
(* ================================================================== *)

Ltac keys_neq HK :=
  let Hnd := fresh "Hnd" in
  let Heq := fresh "Heq" in
  destruct HK as [Hnd _];
  repeat match goal with H : NoDup (_ :: _) |- _ => apply NoDup_cons in H as [? H] end;
  intros Heq; rewrite Heq in *; set_solver.

Lemma restore_external_dns_false_modified K a :
  snd (restore_external_dns K a false) =
  bool_decide (is_Some (a !! OriginalExternalDNSHostname K)) ||
  bool_decide (is_Some (a !! OriginalExternalDNSIngressHostnameSource K)) ||
  bool_decide (is_Some (a !! ExternalDNSIngressHostnameSource K)).
Proof.
  unfold restore_external_dns.
  destruct (a !! OriginalExternalDNSHostname K) eqn:E1; simpl.
  - repeat match goal with |- context [match ?x with Some _ => _ | None => _ end] =>
           destruct x end; simpl; done.
  - destruct (a !! OriginalExternalDNSIngressHostnameSource K); simpl; [done|].
    destruct (a !! ExternalDNSIngressHostnameSource K); done.
Qed.

Lemma needsExternalDNSRestore_modified K ing :
  needsExternalDNSRestore K ing = true <-> is_Some (restoreIngressState K ing false true).
Proof.
  unfold restoreIngressState. cbn [fst snd].
  pose proof (restore_external_dns_false_modified K (ing_annotations ing)) as Hm.
  destruct (restore_external_dns K (ing_annotations ing) false) as [a' m]. simpl in Hm |- *.
  unfold needsExternalDNSRestore. rewrite Hm.
  destruct (bool_decide _), (bool_decide _), (bool_decide _); simpl;
    split; intros H; try done; by inversion H.
Qed.

Lemma restore_class_lookup K ing a k :
  fst (fst (restore_class K ing a)) = (if String.eqb (ann_get a (OriginalIngressClassNameAnnotation K)) "" then None
                                       else Some (ann_get a (OriginalIngressClassNameAnnotation K))) /\
  snd (restore_class K ing a) = true /\
  snd (fst (restore_class K ing a)) !! k =
    if decide (k = OriginalIngressClassAnnotation K) then None
    else if decide (k = OriginalIngressClassNameAnnotation K) then None
    else if decide (k = IngressDisabledAnnotation K) then None
    else if decide (k = IngressClassAnnotation K) then
      (let o := ann_get a (OriginalIngressClassAnnotation K) in
       if String.eqb o "" then None else Some o)
    else a !! k.
Proof.
  unfold restore_class. simpl. split; [done|]. split; [done|].
  destruct (decide (k = OriginalIngressClassAnnotation K)) as [->|H1];
    [by rewrite lookup_delete_eq|rewrite lookup_delete_ne by congruence].
  destruct (decide (k = OriginalIngressClassNameAnnotation K)) as [->|H2];
    [by rewrite lookup_delete_eq|rewrite lookup_delete_ne by congruence].
  destruct (decide (k = IngressDisabledAnnotation K)) as [->|H3];
    [by rewrite lookup_delete_eq|rewrite lookup_delete_ne by congruence].
  destruct (decide (k = IngressClassAnnotation K)) as [->|H4].
  - destruct (String.eqb _ ""); [by rewrite lookup_delete_eq|by rewrite lookup_insert_eq].
  - destruct (String.eqb _ ""); [by rewrite lookup_delete_ne by congruence
                                |by rewrite lookup_insert_ne by congruence].
Qed.

Lemma restoreIngressState_shape K ing rc re u :
  restoreIngressState K ing rc re = Some u ->
  exists a1 cn, (if rc then fst (restore_class K ing (ing_annotations ing))
                 else (ing_class_name ing, ing_annotations ing)) = (cn, a1) /\
    ing_namespace u = ing_namespace ing /\ ing_name u = ing_name ing /\
    ing_rule_hosts u = ing_rule_hosts ing /\ ing_class_name u = cn /\
    (if re then ing_annotations u = fst (restore_external_dns K a1 rc)
     else ing_annotations u = a1).
Proof.
  unfold restoreIngressState.
  assert (Hrc : (if rc then restore_class K ing (ing_annotations ing)
                 else (ing_class_name ing, ing_annotations ing, false))
                = ((if rc then fst (restore_class K ing (ing_annotations ing))
                    else (ing_class_name ing, ing_annotations ing)), rc)).
  { destruct rc; reflexivity. }
  rewrite Hrc.
  intros H.
  destruct (if rc then fst (restore_class K ing (ing_annotations ing))
            else (ing_class_name ing, ing_annotations ing)) as [cn a1] eqn:Ecn.
  exists a1, cn. split; [done|]. revert H.
  destruct re.
  - destruct (restore_external_dns K a1 rc) as [a2 m2] eqn:Ed.
    destruct m2; [|discriminate]. intros [= <-]. simpl. repeat split.
  - destruct rc; [|discriminate]. intros [= <-]. repeat split.
Qed.

Lemma restoreIngressState_class_keys K ing re u k :
  consts_wf K -> restoreIngressState K ing true re = Some u ->
  k <> ExternalDNSHostnameAnnotation K -> k <> OriginalExternalDNSHostname K ->
  k <> ExternalDNSIngressHostnameSource K -> k <> OriginalExternalDNSIngressHostnameSource K ->
  ing_class_name u = (let o := ann_get (ing_annotations ing) (OriginalIngressClassNameAnnotation K) in
                      if String.eqb o "" then None else Some o) /\
  ing_annotations u !! k = snd (fst (restore_class K ing (ing_annotations ing))) !! k.
Proof.
  intros HK H H1 H2 H3 H4.
  destruct (restoreIngressState_shape K ing true re u H) as (a1 & cn & E & _ & _ & _ & Hcn & Ha).
  destruct (restore_class_lookup K ing (ing_annotations ing) k) as (Hc & _ & _).
  rewrite E in Hc |- *. simpl in Hc |- *. split; [congruence|].
  destruct re; rewrite Ha; [by apply restore_external_dns_lookup_other|done].
Qed.

(** Property X7.  Re-enabling with [restoreClass] yields an Ingress that is no longer
    disabled and that [shouldDeleteIngress] rejects: the disabled
    annotation and both saved-class annotations are gone, the class name
    is the saved one (nil if none was saved) and the class annotation is
    the saved one (removed if none was saved). *)
Theorem restoreIngressState_reenables K ing re u :
  consts_wf K -> restoreIngressState K ing true re = Some u ->
  isDisabledIngress K u = false /\ shouldDeleteIngress K u = false /\
  ing_annotations u !! IngressDisabledAnnotation K = None /\
  ing_annotations u !! OriginalIngressClassNameAnnotation K = None /\
  ing_annotations u !! OriginalIngressClassAnnotation K = None /\
  ing_class_name u = (let o := ann_get (ing_annotations ing) (OriginalIngressClassNameAnnotation K) in
                      if String.eqb o "" then None else Some o) /\
  ing_annotations u !! IngressClassAnnotation K =
    (let o := ann_get (ing_annotations ing) (OriginalIngressClassAnnotation K) in
     if String.eqb o "" then None else Some o).
Proof.
  intros HK H.
  assert (Hk : forall k,
    k <> ExternalDNSHostnameAnnotation K -> k <> OriginalExternalDNSHostname K ->
    k <> ExternalDNSIngressHostnameSource K -> k <> OriginalExternalDNSIngressHostnameSource K ->
    ing_annotations u !! k =
      if decide (k = OriginalIngressClassAnnotation K) then None
      else if decide (k = OriginalIngressClassNameAnnotation K) then None
      else if decide (k = IngressDisabledAnnotation K) then None
      else if decide (k = IngressClassAnnotation K) then
        (let o := ann_get (ing_annotations ing) (OriginalIngressClassAnnotation K) in
         if String.eqb o "" then None else Some o)
      else ing_annotations ing !! k).
  { intros k H1 H2 H3 H4.
    rewrite (proj2 (restoreIngressState_class_keys K ing re u k HK H H1 H2 H3 H4)).
    apply restore_class_lookup. }
  assert (Hdis : ing_annotations u !! IngressDisabledAnnotation K = None).
  { rewrite Hk by keys_neq HK.
    destruct (decide _) as [?|_]; [done|]. destruct (decide _) as [?|_]; [done|].
    by rewrite decide_True. }
  split; [unfold isDisabledIngress, ann_get; by rewrite Hdis|].
  split; [unfold shouldDeleteIngress, ann_get; by rewrite Hdis|].
  split; [exact Hdis|].
  split; [rewrite Hk by keys_neq HK; destruct (decide _) as [?|_]; [done|]; by rewrite decide_True|].
  split; [rewrite Hk by keys_neq HK; by rewrite decide_True|].
  split; [apply (restoreIngressState_class_keys K ing re u (IngressDisabledAnnotation K) HK H);
          keys_neq HK|].
  rewrite Hk by keys_neq HK.
  rewrite decide_False by keys_neq HK. rewrite decide_False by keys_neq HK.
  rewrite decide_False by keys_neq HK. by rewrite decide_True.
Qed.

Lemma restore_external_dns_keys K a m :
  consts_wf K ->
  fst (restore_external_dns K a m) !! OriginalExternalDNSHostname K = None /\
  fst (restore_external_dns K a m) !! OriginalExternalDNSIngressHostnameSource K = None /\
  fst (restore_external_dns K a m) !! ExternalDNSHostnameAnnotation K =
    match a !! OriginalExternalDNSHostname K with
    | Some h => if String.eqb h "" then None else Some h
    | None => a !! ExternalDNSHostnameAnnotation K
    end /\
  fst (restore_external_dns K a m) !! ExternalDNSIngressHostnameSource K =
    match a !! OriginalExternalDNSIngressHostnameSource K with
    | Some s => if String.eqb s "" then None else Some s
    | None => None
    end.
Proof.
  intros HK.
  assert (n1 : OriginalExternalDNSHostname K <> ExternalDNSHostnameAnnotation K) by keys_neq HK.
  assert (n2 : OriginalExternalDNSHostname K <> OriginalExternalDNSIngressHostnameSource K) by keys_neq HK.
  assert (n3 : OriginalExternalDNSHostname K <> ExternalDNSIngressHostnameSource K) by keys_neq HK.
  assert (n4 : ExternalDNSHostnameAnnotation K <> OriginalExternalDNSIngressHostnameSource K) by keys_neq HK.
  assert (n5 : ExternalDNSHostnameAnnotation K <> ExternalDNSIngressHostnameSource K) by keys_neq HK.
  assert (n6 : OriginalExternalDNSIngressHostnameSource K <> ExternalDNSIngressHostnameSource K) by keys_neq HK.
  unfold restore_external_dns.
  destruct (a !! OriginalExternalDNSHostname K) as [h|] eqn:Eh;
  destruct (a !! OriginalExternalDNSIngressHostnameSource K) as [s|] eqn:Es;
  destruct (a !! ExternalDNSIngressHostnameSource K) as [s'|] eqn:Es';
  repeat (case_match; simpl); simplify_map_eq; repeat split; try done; congruence.
Qed.

Lemma restore_class_other K ing (rc : bool) (cn : option string) (a1 : gmap string string) k :
  (if rc then fst (restore_class K ing (ing_annotations ing))
   else (ing_class_name ing, ing_annotations ing)) = (cn, a1) ->
  k <> OriginalIngressClassAnnotation K -> k <> OriginalIngressClassNameAnnotation K ->
  k <> IngressDisabledAnnotation K -> k <> IngressClassAnnotation K ->
  a1 !! k = ing_annotations ing !! k.
Proof.
  intros E H1 H2 H3 H4. destruct rc; [|congruence].
  destruct (restore_class_lookup K ing (ing_annotations ing) k) as (_ & _ & Hk).
  rewrite E in Hk. simpl in Hk. rewrite Hk.
  by rewrite !decide_False.
Qed.

Lemma restoreIngressState_hostname_keys K ing rc u :
  consts_wf K -> restoreIngressState K ing rc true = Some u ->
  let a := ing_annotations ing in
  ing_annotations u !! OriginalExternalDNSHostname K = None /\
  ing_annotations u !! OriginalExternalDNSIngressHostnameSource K = None /\
  ing_annotations u !! ExternalDNSHostnameAnnotation K =
    match a !! OriginalExternalDNSHostname K with
    | Some h => if String.eqb h "" then None else Some h
    | None => a !! ExternalDNSHostnameAnnotation K
    end /\
  ing_annotations u !! ExternalDNSIngressHostnameSource K =
    match a !! OriginalExternalDNSIngressHostnameSource K with
    | Some s => if String.eqb s "" then None else Some s
    | None => None
    end.
Proof.
  intros HK H a.
  destruct (restoreIngressState_shape K ing rc true u H) as (a1 & cn & E & _ & _ & _ & _ & Ha).
  rewrite Ha. destruct (restore_external_dns_keys K a1 rc HK) as (R1 & R2 & R3 & R4).
  rewrite (restore_class_other K ing rc cn a1 (OriginalExternalDNSHostname K)) in R3
    by (done || keys_neq HK).
  rewrite (restore_class_other K ing rc cn a1 (ExternalDNSHostnameAnnotation K)) in R3
    by (done || keys_neq HK).
  rewrite (restore_class_other K ing rc cn a1 (OriginalExternalDNSIngressHostnameSource K)) in R4
    by (done || keys_neq HK).
  done.
Qed.

(** Property X8.  [needsExternalDNSRestore] holds exactly when restoring the external-dns
    annotations alone (without the class) would issue an update. *)
Theorem needsExternalDNSRestore_iff_update K ing :
  needsExternalDNSRestore K ing = true <-> is_Some (restoreIngressState K ing false true).
Proof. apply needsExternalDNSRestore_modified. Qed.

(** Property X9.  Restoring the external-dns annotations removes both saved-hostname
    annotations, sets the hostname annotation to the saved hostname (or
    removes it if the saved one is empty, or leaves it if none was saved),
    and sets the hostname-source annotation to the saved source, removing
    it when no non-empty source was saved. *)
Theorem restoreIngressState_restores_hostname K ing rc u :
  consts_wf K -> restoreIngressState K ing rc true = Some u ->
  let a := ing_annotations ing in
  ing_annotations u !! OriginalExternalDNSHostname K = None /\
  ing_annotations u !! OriginalExternalDNSIngressHostnameSource K = None /\
  ing_annotations u !! ExternalDNSHostnameAnnotation K =
    match a !! OriginalExternalDNSHostname K with
    | Some h => if String.eqb h "" then None else Some h
    | None => a !! ExternalDNSHostnameAnnotation K
    end /\
  ing_annotations u !! ExternalDNSIngressHostnameSource K =
    match a !! OriginalExternalDNSIngressHostnameSource K with
    | Some s => if String.eqb s "" then None else Some s
    | None => None
    end.
Proof. apply restoreIngressState_hostname_keys. Qed.

(** Property X10.  Restoring the external-dns annotations is not idempotent: after a
    restore that put back a saved non-empty hostname source, the Ingress
    still needs a restore by [needsExternalDNSRestore], and a second
    restore removes that hostname source. *)
Theorem restoreIngressState_second_restore_drops_source K ing u s :
  consts_wf K -> restoreIngressState K ing false true = Some u ->
  ing_annotations ing !! OriginalExternalDNSIngressHostnameSource K = Some s -> s <> ""%string ->
  ing_annotations u !! ExternalDNSIngressHostnameSource K = Some s /\
  needsExternalDNSRestore K u = true /\
  exists u', restoreIngressState K u false true = Some u' /\
             ing_annotations u' !! ExternalDNSIngressHostnameSource K = None.
Proof.
  intros HK H Hs Hne.
  destruct (restoreIngressState_hostname_keys K ing false u HK H) as (_ & U2 & _ & U4).
  rewrite Hs in U4. apply String.eqb_neq in Hne. rewrite Hne in U4.
  assert (Hn : needsExternalDNSRestore K u = true).
  { unfold needsExternalDNSRestore. rewrite U4.
    rewrite (bool_decide_eq_true_2 (is_Some (Some s))) by done.
    by repeat case_bool_decide. }
  split; [exact U4|]. split; [exact Hn|].
  destruct (proj1 (needsExternalDNSRestore_modified K u) Hn) as [u' Hu'].
  exists u'. split; [exact Hu'|].
  destruct (restoreIngressState_hostname_keys K u false u' HK Hu') as (_ & _ & _ & V4).
  by rewrite V4, U2.
Qed.

(* ================================================================== *)
(** * Further properties of the re-enabler: the run                      *)
(* ================================================================== *)

Section ReenablerRunProps.

Variable K : ControllerConsts.
Variables (Route GatewayObj : Type).
Variable fr : Route -> string -> string -> bool.
Variable fg : GatewayObj -> string -> string -> bool.
Variable SFN : string -> string.
Variable World : Type.
Variable cl : Cluster Route GatewayObj World.

Lemma delete_managed_routes_spec w ns name routes w' tr err :
  delete_managed_routes Route GatewayObj fr World cl w ns name routes = (w', tr, err) ->
  exists l, tr = ADeleteRoute Route <$> l /\
    l `prefix_of` filter (fun r => fr r ns name = true) routes /\
    (err = None -> l = filter (fun r => fr r ns name = true) routes).
Proof.
  revert w w' tr err. induction routes as [|r rest IH]; intros w w' tr err; simpl.
  - intros [= <- <- <-]. exists []. done.
  - destruct (fr r ns name) eqn:Hr; simpl.
    + rewrite filter_cons_True by done.
      destruct (DeleteRoute Route GatewayObj World cl w r) as [w1|e].
      * destruct (delete_managed_routes Route GatewayObj fr World cl w1 ns name rest)
          as [[w2 tr2] err2] eqn:E.
        intros [= <- <- <-]. destruct (IH _ _ _ _ E) as (l & -> & Hp & Hn).
        exists (r :: l). split; [done|]. split; [by apply prefix_cons|].
        intros He. by rewrite Hn.
      * intros [= <- <- <-]. exists [r]. split; [done|]. split; [|done].
        apply prefix_cons, prefix_nil.
    + rewrite filter_cons_False by (rewrite Hr; discriminate). apply IH.
Qed.


Lemma removeManagedHTTPRoutes_routes w ing w' tr err :
  removeManagedHTTPRoutes Route GatewayObj fr World cl w ing = (w', tr, err) ->
  (forall e, RoutesWithPrefix Route GatewayObj World cl w (ing_namespace ing) (ing_name ing)
             = Err e -> tr = [] /\ err = Some e /\ w' = w) /\
  (forall routes,
     RoutesWithPrefix Route GatewayObj World cl w (ing_namespace ing) (ing_name ing) = Ok routes ->
     exists l, tr = ADeleteRoute Route <$> l /\
       l `prefix_of` filter (fun r => fr r (ing_namespace ing) (ing_name ing) = true) routes /\
       (err = None -> l = filter (fun r => fr r (ing_namespace ing) (ing_name ing) = true) routes)).
Proof.
  unfold removeManagedHTTPRoutes. intros H. split.
  - intros e He. rewrite He in H. by injection H as <- <- <-.
  - intros routes Hr. rewrite Hr in H. by apply delete_managed_routes_spec in H.
Qed.

(** Property X11.  [removeManagedHTTPRoutes] deletes only routes that
    [IsManagedByUsForIngress] accepts for the Ingress, in listing order:
    a failed listing deletes nothing and is returned; otherwise the
    deletions issued are a prefix of the managed routes, and all of them
    when no error is returned (a failed delete stops the loop). *)
Theorem removeManagedHTTPRoutes_spec w ing w' tr err :
  removeManagedHTTPRoutes Route GatewayObj fr World cl w ing = (w', tr, err) ->
  (forall e, RoutesWithPrefix Route GatewayObj World cl w (ing_namespace ing) (ing_name ing)
             = Err e -> tr = [] /\ err = Some e /\ w' = w) /\
  (forall routes,
     RoutesWithPrefix Route GatewayObj World cl w (ing_namespace ing) (ing_name ing) = Ok routes ->
     exists l, tr = ADeleteRoute Route <$> l /\
       l `prefix_of` filter (fun r => fr r (ing_namespace ing) (ing_name ing) = true) routes /\
       (err = None -> l = filter (fun r => fr r (ing_namespace ing) (ing_name ing) = true) routes)).
Proof. apply removeManagedHTTPRoutes_routes. Qed.

Lemma removeAutomaticSnippetsFilter_actions w ing w' tr err :
  removeAutomaticSnippetsFilter Route GatewayObj SFN World cl w ing = (w', tr, err) ->
  forall a, a ∈ tr -> exists f, a = ADeleteSnippetsFilter Route f /\ IsManagedByUs f = true.
Proof.
  unfold removeAutomaticSnippetsFilter.
  destruct (SnippetsFilterCRDVersion _ _ _ cl w) as [[v|]|e];
    [|intros [= <- <- <-]; intros a Ha; inversion Ha|intros [= <- <- <-]; intros a Ha; inversion Ha].
  destruct (GetSnippetsFilter _ _ _ cl w _ _ _) as [f|e].
  - destruct (IsManagedByUs f) eqn:Hf; simpl.
    + destruct (DeleteSnippetsFilter _ _ _ cl w f) as [w1|e1];
        intros [= <- <- <-]; intros a Ha; apply list_elem_of_singleton in Ha as ->; eauto.
    + intros [= <- <- <-]; intros a Ha; inversion Ha.
  - destruct (IsNotFound e); intros [= <- <- <-]; intros a Ha; inversion Ha.
Qed.

Lemma after_restore_actions rd rc w ing tr0 w' tr :
  after_restore K Route GatewayObj fr SFN World cl rd rc w ing tr0 = (w', tr) ->
  exists tr1, tr = tr0 ++ tr1 /\
    forall a, a ∈ tr1 ->
      isDisabledIngress K ing && rc && rd = true /\
      match a with
      | ADeleteRoute _ r => fr r (ing_namespace ing) (ing_name ing) = true
      | ADeleteSnippetsFilter _ f => IsManagedByUs f = true
      | _ => False
      end.
Proof.
  unfold after_restore.
  destruct (isDisabledIngress K ing && rc && rd) eqn:Hc.
  - destruct (removeManagedHTTPRoutes Route GatewayObj fr World cl w ing) as [[w2 tr2] err2] eqn:E2.
    destruct (removeManagedHTTPRoutes_routes w ing w2 tr2 err2 E2) as [He Hok].
    assert (Hr : forall a, a ∈ tr2 -> exists r, a = ADeleteRoute Route r /\
                                   fr r (ing_namespace ing) (ing_name ing) = true).
    { intros a Ha. unfold removeManagedHTTPRoutes in E2.
      destruct (RoutesWithPrefix _ _ _ cl w _ _) as [routes|e] eqn:Er.
      - destruct (Hok routes eq_refl) as (l & -> & Hp & _).
        apply list_elem_of_fmap in Ha as (r & -> & Hrl). exists r. split; [done|].
        destruct Hp as [k Hk]. assert (Hin : r ∈ filter (fun r => fr r (ing_namespace ing) (ing_name ing) = true) routes)
          by (rewrite Hk; apply elem_of_app; by left).
        by apply list_elem_of_filter in Hin as [? _].
      - destruct (He e eq_refl) as [-> _]. inversion Ha. }
    destruct err2 as [e2|].
    + intros [= <- <-]. exists tr2. split; [done|]. intros a Ha.
      destruct (Hr a Ha) as (r & -> & Hfr). done.
    + destruct (removeAutomaticSnippetsFilter Route GatewayObj SFN World cl w2 ing) as [[w3 tr3] err3] eqn:E3.
      intros [= <- <-]. exists (tr2 ++ tr3). split; [done|]. intros a Ha.
      apply elem_of_app in Ha as [Ha|Ha].
      * destruct (Hr a Ha) as (r & -> & Hfr). done.
      * destruct (removeAutomaticSnippetsFilter_actions w2 ing w3 tr3 err3 E3 a Ha) as (f & -> & Hf).
        done.
  - intros [= <- <-]. exists []. split; [by rewrite app_nil_r|]. intros a Ha. inversion Ha.
Qed.

Lemma reenable_one_restore_actions rd rc re w ing w' tr :
  reenable_one K Route GatewayObj fr fg SFN World cl rd rc re false w ing = (w', tr) ->
  forall a, a ∈ tr ->
    match a with
    | ADeleteIngress _ _ => False
    | AUpdateIngress _ u => restoreIngressState K ing (isDisabledIngress K ing && rc) re = Some u
    | ADeleteRoute _ r =>
        isDisabledIngress K ing && rc && rd = true /\ fr r (ing_namespace ing) (ing_name ing) = true
    | ADeleteSnippetsFilter _ f => isDisabledIngress K ing && rc && rd = true /\ IsManagedByUs f = true
    end.
Proof.
  unfold reenable_one. simpl.
  destruct (negb (isDisabledIngress K ing) && _); [intros [= <- <-] a Ha; inversion Ha|].
  assert (Har : forall w0 tr0 w1 tr1,
    after_restore K Route GatewayObj fr SFN World cl rd rc w0 ing tr0 = (w1, tr1) ->
    (forall a, a ∈ tr0 -> exists u, a = AUpdateIngress Route u /\
        restoreIngressState K ing (isDisabledIngress K ing && rc) re = Some u) ->
    forall a, a ∈ tr1 ->
    match a with
    | ADeleteIngress _ _ => False
    | AUpdateIngress _ u => restoreIngressState K ing (isDisabledIngress K ing && rc) re = Some u
    | ADeleteRoute _ r =>
        isDisabledIngress K ing && rc && rd = true /\ fr r (ing_namespace ing) (ing_name ing) = true
    | ADeleteSnippetsFilter _ f => isDisabledIngress K ing && rc && rd = true /\ IsManagedByUs f = true
    end).
  { intros w0 tr0 w1 tr1 E H0 a Ha.
    destruct (after_restore_actions rd rc w0 ing tr0 w1 tr1 E) as (tr2 & -> & H2).
    apply elem_of_app in Ha as [Ha|Ha].
    - destruct (H0 a Ha) as (u & -> & Hu). exact Hu.
    - destruct (H2 a Ha) as [Hc Ha']. destruct a; done. }
  destruct (restoreIngressState K ing (isDisabledIngress K ing && rc) re) as [u|] eqn:Hu.
  - destruct (UpdateIngress _ _ _ cl w u) as [w1|e].
    + intros E. apply (Har _ _ _ _ E). intros a Ha.
      apply list_elem_of_singleton in Ha as ->. eauto.
    + intros [= <- <-] a Ha. apply list_elem_of_singleton in Ha as ->. done.
  - intros E. apply (Har _ _ _ _ E). intros a Ha. inversion Ha.
Qed.

Lemma reenable_all_restore_actions rd rc re w items w' tr :
  reenable_all K Route GatewayObj fr fg SFN World cl rd rc re false w items = (w', tr) ->
  forall a, a ∈ tr -> exists ing, ing ∈ items /\
    match a with
    | ADeleteIngress _ _ => False
    | AUpdateIngress _ u => restoreIngressState K ing (isDisabledIngress K ing && rc) re = Some u
    | ADeleteRoute _ r =>
        isDisabledIngress K ing && rc && rd = true /\ fr r (ing_namespace ing) (ing_name ing) = true
    | ADeleteSnippetsFilter _ f => isDisabledIngress K ing && rc && rd = true /\ IsManagedByUs f = true
    end.
Proof.
  revert w w' tr. induction items as [|ing rest IH]; intros w w' tr; simpl.
  - intros [= <- <-] a Ha. inversion Ha.
  - destruct (reenable_one K Route GatewayObj fr fg SFN World cl rd rc re false w ing) as [w1 tr1] eqn:E1.
    destruct (reenable_all K Route GatewayObj fr fg SFN World cl rd rc re false w1 rest) as [w2 tr2] eqn:E2.
    intros [= <- <-] a Ha. apply elem_of_app in Ha as [Ha|Ha].
    + exists ing. split; [left|]. exact (reenable_one_restore_actions rd rc re w ing w1 tr1 E1 a Ha).
    + destruct (IH _ _ _ E2 a Ha) as (ing' & Hin & Hm). exists ing'. split; [by right|exact Hm].
Qed.

(** Property X12.  Without [dangerouslyDeleteIngresses], [runReenabler] never deletes an
    Ingress.  Each update it issues is the [restoreIngressState] result of
    a listed Ingress, and each HTTPRoute or SnippetsFilter it deletes is
    managed by us for a listed Ingress that is disabled, with both
    [restoreClass] and [removeDerivedResources] set. *)
Theorem runReenabler_restore_mode_writes rd rc re w ns r w' tr items :
  ListIngresses Route GatewayObj World cl w (if String.eqb ns "" then None else Some ns) = Ok items ->
  runReenabler K Route GatewayObj fr fg SFN World cl rd rc re false w ns = (r, w', tr) ->
  (forall i, ADeleteIngress Route i ∉ tr) /\
  (forall u, AUpdateIngress Route u ∈ tr ->
     exists ing, ing ∈ items /\ restoreIngressState K ing (isDisabledIngress K ing && rc) re = Some u) /\
  (forall rt, ADeleteRoute Route rt ∈ tr ->
     rc && rd = true /\ exists ing, ing ∈ items /\ isDisabledIngress K ing = true /\
       fr rt (ing_namespace ing) (ing_name ing) = true) /\
  (forall f, ADeleteSnippetsFilter Route f ∈ tr ->
     rc && rd = true /\ IsManagedByUs f = true /\
     exists ing, ing ∈ items /\ isDisabledIngress K ing = true).
Proof.
  intros Hl. unfold runReenabler.
  assert (Hl' : (if String.eqb ns "" then ListIngresses Route GatewayObj World cl w None
                 else ListIngresses Route GatewayObj World cl w (Some ns)) = Ok items)
    by (destruct (String.eqb ns ""); exact Hl).
  rewrite Hl'.
  destruct (reenable_all K Route GatewayObj fr fg SFN World cl rd rc re false w items) as [w1 tr1] eqn:E.
  intros [= <- <- <-].
  pose proof (reenable_all_restore_actions rd rc re w items w1 tr1 E) as H.
  split; [|split; [|split]].
  - intros i Hi. by destruct (H _ Hi) as (ing & _ & []).
  - intros u Hu. destruct (H _ Hu) as (ing & Hin & Hm). eauto.
  - intros rt Hrt. destruct (H _ Hrt) as (ing & Hin & Hc & Hm).
    apply andb_prop in Hc as [Hc Hrd]. apply andb_prop in Hc as [Hd Hrc].
    rewrite Hrc, Hrd. split; [done|]. eauto.
  - intros f Hf. destruct (H _ Hf) as (ing & Hin & Hc & Hm).
    apply andb_prop in Hc as [Hc Hrd]. apply andb_prop in Hc as [Hd Hrc].
    rewrite Hrc, Hrd. split; [done|]. split; [done|]. eauto.
Qed.


Lemma precheck_all_ok w items :
  precheck_all K Route GatewayObj fr fg World cl w items = Ok tt ->
  forall i, i ∈ items -> exists reason,
    check_at K Route GatewayObj fr fg World cl w i = Ok (true, reason).
Proof.
  induction items as [|ing rest IH]; simpl; intros H i Hi; [inversion Hi|].
  destruct (check_at K Route GatewayObj fr fg World cl w ing) as [[[] reason]|e] eqn:Ec;
    try discriminate.
  apply elem_of_cons in Hi as [->|Hi]; [eauto|]. by apply IH.
Qed.

Lemma reenable_all_delete rd rc re w items w' tr :
  Forall (fun i => shouldDeleteIngress K i = true) items ->
  reenable_all K Route GatewayObj fr fg SFN World cl rd rc re true w items = (w', tr) ->
  exists l, l `sublist_of` items /\ tr = ADeleteIngress Route <$> l.
Proof.
  revert w w' tr. induction items as [|ing rest IH]; intros w w' tr Hall; simpl.
  - intros [= <- <-]. exists []. done.
  - apply Forall_cons in Hall as [Hs Hall].
    destruct (reenable_one K Route GatewayObj fr fg SFN World cl rd rc re true w ing) as [w1 tr1] eqn:E1.
    destruct (reenable_all K Route GatewayObj fr fg SFN World cl rd rc re true w1 rest) as [w2 tr2] eqn:E2.
    intros [= <- <-]. destruct (IH _ _ _ Hall E2) as (l & Hl & ->).
    unfold reenable_one in E1. rewrite Hs in E1. simpl in E1.
    destruct (check_at K Route GatewayObj fr fg World cl w ing) as [[[] reason]|e].
    + exists (ing :: l). split; [by apply sublist_skip|].
      destruct (DeleteIngress _ _ _ cl w ing); injection E1 as <- <-; done.
    + injection E1 as <- <-. exists l. split; [by apply sublist_cons|done].
    + injection E1 as <- <-. exists l. split; [by apply sublist_cons|done].
Qed.

(** Property X13.  [runReenabler] returns an error only from listing the Ingresses or
    from the eligibility pre-check, before any write: the cluster is then
    unchanged.  Failures while processing one Ingress are logged and
    skipped, never returned. *)
Theorem runReenabler_error_no_writes rd rc re dd w ns e w' tr :
  runReenabler K Route GatewayObj fr fg SFN World cl rd rc re dd w ns = (Err e, w', tr) ->
  w' = w /\ tr = [].
Proof.
  unfold runReenabler.
  destruct (if String.eqb ns "" then _ else _) as [items|e1]; [|by intros [= _ <- <-]].
  destruct (if dd then _ else Ok tt) as [[]|e2]; [|by intros [= _ <- <-]].
  by destruct (reenable_all K Route GatewayObj fr fg SFN World cl rd rc re dd w items).
Qed.

(** Property X14.  With [dangerouslyDeleteIngresses], [runReenabler] issues no write but
    Ingress deletions: the Ingresses it deletes are listed ones, in listing
    order, each at most once.  When it succeeds, every listed Ingress was
    first found to satisfy [shouldDeleteIngress] and to have both a
    managed HTTPRoute and a managed Gateway in the initial cluster. *)
Theorem runReenabler_delete_mode rd rc re w ns r w' tr items :
  ListIngresses Route GatewayObj World cl w (if String.eqb ns "" then None else Some ns) = Ok items ->
  runReenabler K Route GatewayObj fr fg SFN World cl rd rc re true w ns = (r, w', tr) ->
  (exists l, l `sublist_of` items /\ tr = ADeleteIngress Route <$> l) /\
  (r = Ok tt -> forall i, i ∈ items ->
     shouldDeleteIngress K i = true /\
     hasManagedResources Route GatewayObj fr fg
       {| ListGateways := ListGatewaysIn Route GatewayObj World cl w |}
       (Some {| GetHTTPRoutesWithPrefix := RoutesWithPrefix Route GatewayObj World cl w |}) i
     = Ok (true, true)).
Proof.
  intros Hl. unfold runReenabler.
  assert (Hl' : (if String.eqb ns "" then ListIngresses Route GatewayObj World cl w None
                 else ListIngresses Route GatewayObj World cl w (Some ns)) = Ok items)
    by (destruct (String.eqb ns ""); exact Hl).
  rewrite Hl'.
  destruct (precheck_all K Route GatewayObj fr fg World cl w items) as [[]|e] eqn:Hp.
  - destruct (reenable_all K Route GatewayObj fr fg SFN World cl rd rc re true w items) as [w1 tr1] eqn:E.
    intros [= <- <- <-].
    pose proof (precheck_all_ok w items Hp) as Hok.
    assert (Hi : forall i, i ∈ items ->
              shouldDeleteIngress K i = true /\
              hasManagedResources Route GatewayObj fr fg
                {| ListGateways := ListGatewaysIn Route GatewayObj World cl w |}
                (Some {| GetHTTPRoutesWithPrefix := RoutesWithPrefix Route GatewayObj World cl w |}) i
              = Ok (true, true)).
    { intros i Hin. destruct (Hok i Hin) as [reason Hc].
      exact (checkDeleteEligibility_eligible K Route GatewayObj fr fg _ _ i reason Hc). }
    split; [|intros _; exact Hi].
    apply (reenable_all_delete rd rc re w items w1 tr1); [|exact E].
    apply Forall_forall. intros i Hin. apply (Hi i Hin).
  - intros [= <- <- <-]. split; [exists []; split; [apply sublist_nil_l|done]|discriminate].
Qed.

End ReenablerRunProps.

(* ================================================================== *)
(** * Further properties of the annotation and listener merge           *)
(* ================================================================== *)

Lemma map_empty_append (xs : list string) : map (fun y => (EmptyString ++ y)%string) xs = xs.
Proof. induction xs as [|x xs IH]; [done|]. simpl. by rewrite IH. Qed.

Lemma map_TrimSpace_space_app (xs : list string) :
  Forall (fun y => TrimSpace y = y) xs ->
  map TrimSpace (map (fun y => (String " "%char EmptyString ++ y)%string) xs) = xs.
Proof.
  induction xs as [|x xs IH]; intros Hall; [done|]. apply Forall_cons in Hall as [Hx Hall].
  simpl. rewrite IH by done. f_equal. change (TrimSpace (String " "%char x) = x).
  by rewrite TrimSpace_space_app.
Qed.

(** The invariant of the order-preserving loop: the collected values are
    distinct, trimmed, non-empty and free of the separator, and the seen
    set holds exactly them. *)
Lemma collect_values_inv vals v sn :
  (forall x, x ∈ v <-> x ∈ sn) -> NoDup v ->
  (forall x, x ∈ v -> x <> EmptyString /\ TrimSpace x = x /\ has_char ","%char x = false) ->
  (forall y, y ∈ vals -> has_char ","%char y = false) ->
  let r := collect_values vals (v, sn) in
  (forall x, x ∈ r.1 <-> x ∈ r.2) /\ NoDup r.1 /\
  (forall x, x ∈ r.1 -> x <> EmptyString /\ TrimSpace x = x /\ has_char ","%char x = false).
Proof.
  unfold collect_values. revert v sn.
  induction vals as [|y l IH]; intros v sn Hset Hnd Hok Hvals; simpl; [done|].
  destruct (String.eqb_spec (TrimSpace y) "") as [He|He]; simpl.
  - apply IH; try done. intros z Hz. apply Hvals. by right.
  - case_bool_decide as Hin; simpl.
    + apply IH; try done. intros z Hz. apply Hvals. by right.
    + apply IH.
      * intros x. rewrite elem_of_app, list_elem_of_singleton, elem_of_union,
          elem_of_singleton, Hset. tauto.
      * apply NoDup_app. split; [done|]. split; [|apply NoDup_singleton].
        intros x Hx Hx'. apply list_elem_of_singleton in Hx' as ->. apply Hin, Hset, Hx.
      * intros x Hx. apply elem_of_app in Hx as [Hx|Hx]; [by apply Hok|].
        apply list_elem_of_singleton in Hx as ->. split; [done|].
        split; [apply TrimSpace_idem|]. apply has_char_TrimSpace, Hvals. left.
      * intros z Hz. apply Hvals. by right.
Qed.

(** Collecting values that are already distinct, trimmed, non-empty and
    unseen appends them unchanged. *)
Lemma collect_values_normal xs v sn :
  NoDup xs ->
  (forall x, x ∈ xs -> (x ∉ sn) /\ TrimSpace x = x /\ x <> EmptyString) ->
  collect_values xs (v, sn) = (v ++ xs, list_to_set xs ∪ sn).
Proof.
  unfold collect_values. revert v sn.
  induction xs as [|x l IH]; intros v sn Hnd Hall; simpl.
  - by rewrite app_nil_r, union_empty_l_L.
  - apply NoDup_cons in Hnd as [Hx Hnd].
    destruct (Hall x ltac:(left)) as (Hsn & Ht & Hne).
    rewrite Ht. rewrite (proj2 (String.eqb_neq _ _) Hne). rewrite bool_decide_eq_false_2 by done.
    simpl. rewrite IH.
    + rewrite <- app_assoc. f_equal. set_solver.
    + done.
    + intros y Hy. destruct (Hall y ltac:(by right)) as (Hsny & Hty & Hney).
      split; [|done]. rewrite elem_of_union, elem_of_singleton.
      intros [->|?]; [done|done].
Qed.

Lemma Split_Join_comma (values : list string) :
  values <> [] -> (forall x, x ∈ values -> has_char ","%char x = false) ->
  Split (Join values ","%string) ","%char = values.
Proof.
  destruct values as [|x xs]; [done|]. intros _ Hall.
  change ","%string with (String ","%char EmptyString).
  rewrite Split_Join; [by rewrite map_empty_append|done|].
  apply Forall_forall. intros y Hy. by apply Hall.
Qed.

(** Property X15.  Merging the same desired value a second time changes nothing: when
    both values are non-empty and the first merge is not empty, merging
    [desired] into the result again gives the result back.  (With only
    blank tokens the first merge is empty, and merging into it returns
    [desired].) *)
Theorem MergeAnnotationValues_reapply existing desired :
  existing <> EmptyString -> desired <> EmptyString ->
  MergeAnnotationValues existing desired <> EmptyString ->
  MergeAnnotationValues (MergeAnnotationValues existing desired) desired =
  MergeAnnotationValues existing desired.
Proof.
  intros He Hd.
  pose proof (collect_values_inv (Split existing ","%char) [] ∅) as Hi1.
  destruct (collect_values (Split existing ","%char) ([], ∅)) as [v1 sn1] eqn:Hc1.
  destruct Hi1 as (Hset1 & Hnd1 & Hok1); [set_solver|constructor|set_solver|
    intros y Hy; by eapply Split_fields_no_sep|]. simpl in *.
  pose proof (collect_values_inv (Split desired ","%char) v1 sn1 Hset1 Hnd1 Hok1) as Hi2.
  pose proof (proj2 (collect_values_seen (Split desired ","%char) (v1, sn1))) as Hseen.
  destruct (collect_values (Split desired ","%char) (v1, sn1)) as [vals sn] eqn:Hc2.
  destruct Hi2 as (Hset & Hnd & Hok); [intros y Hy; by eapply Split_fields_no_sep|].
  simpl in *.
  assert (Hout : MergeAnnotationValues existing desired = Join vals ",").
  { unfold MergeAnnotationValues.
    rewrite (proj2 (String.eqb_neq _ _) He), (proj2 (String.eqb_neq _ _) Hd).
    by rewrite Hc1, Hc2. }
  rewrite Hout. intros Hne.
  assert (Hvne : vals <> []) by (intros ->; by apply Hne).
  unfold MergeAnnotationValues.
  rewrite (proj2 (String.eqb_neq _ _) Hne), (proj2 (String.eqb_neq _ _) Hd).
  rewrite Split_Join_comma by (done || (intros x Hx; by apply Hok)).
  rewrite collect_values_normal.
  - rewrite app_nil_l, collect_values_noop; [done|].
    intros y Hy Hty. apply elem_of_union_l, elem_of_list_to_set, Hset, Hseen; done.
  - done.
  - intros x Hx. destruct (Hok x Hx) as (? & ? & ?). set_solver.
Qed.

Lemma add_trimmed_elem l (S : gset string) x :
  x ∈ fold_left add_trimmed l S <->
  x ∈ S \/ (x <> EmptyString /\ exists y, y ∈ l /\ TrimSpace y = x).
Proof.
  revert S. induction l as [|y l IH]; intros S; simpl.
  - split; [by left|]. intros [?|(_ & z & Hz & _)]; [done|inversion Hz].
  - rewrite IH. unfold add_trimmed.
    destruct (String.eqb_spec (TrimSpace y) "") as [Hy|Hy].
    + split.
      * intros [?|(Hne & z & Hz & <-)]; [by left|right; split; [done|exists z; split; [by right|done]]].
      * intros [?|(Hne & z & Hz & <-)]; [by left|right; split; [done|]].
        exists z. apply elem_of_cons in Hz as [->|Hz]; [done|by split].
    + rewrite elem_of_union, elem_of_singleton. split.
      * intros [[->|?]|(Hne & z & Hz & <-)].
        -- right. split; [done|]. exists y. split; [left|done].
        -- by left.
        -- right. split; [done|]. exists z. split; [by right|done].
      * intros [?|(Hne & z & Hz & <-)]; [left; by right|].
        apply elem_of_cons in Hz as [->|Hz]; [left; by left|right; split; [done|by exists z]].
Qed.

Lemma cert_values_elem e d x :
  x ∈ cert_values e d <->
  x <> EmptyString /\ exists y, (y ∈ Split e ";"%char \/ y ∈ Split d ";"%char) /\ TrimSpace y = x.
Proof.
  unfold cert_values. rewrite !add_trimmed_elem. set_solver.
Qed.

Lemma cert_values_ok e d x :
  x ∈ cert_values e d ->
  TrimSpace x = x /\ has_char ";"%char x = false.
Proof.
  rewrite cert_values_elem. intros (_ & y & Hy & <-). split; [apply TrimSpace_idem|].
  apply has_char_TrimSpace. destruct Hy as [Hy|Hy]; by eapply Split_fields_no_sep.
Qed.

Lemma Split_Join_records (values : list string) :
  values <> [] ->
  (forall x, x ∈ values -> TrimSpace x = x /\ has_char ";"%char x = false) ->
  map TrimSpace (Split (Join values "; ") ";"%char) = values.
Proof.
  destruct values as [|x xs]; [done|]. intros _ Hall.
  change "; "%string with (String ";"%char (String " "%char EmptyString)).
  rewrite Split_Join.
  - simpl. rewrite map_TrimSpace_space_app.
    + f_equal. apply Hall. left.
    + apply Forall_forall. intros y Hy. apply Hall. by right.
  - done.
  - apply Forall_forall. intros y Hy. by apply Hall.
Qed.

(** Property X16.  A non-empty result of [MergeCertificateMismatchAnnotation] of two
    non-empty values holds, once split at [';'] and trimmed, exactly the
    distinct trimmed non-empty records of both inputs, each once; merging
    the same desired value into it again yields the same records. *)
Theorem MergeCertificateMismatchAnnotation_records existing desired out :
  existing <> EmptyString -> desired <> EmptyString ->
  MergeCertificateMismatchAnnotation existing desired out -> out <> EmptyString ->
  map TrimSpace (Split out ";"%char) ≡ₚ elements (cert_values existing desired) /\
  (forall out', MergeCertificateMismatchAnnotation out desired out' ->
     map TrimSpace (Split out' ";"%char) ≡ₚ elements (cert_values existing desired)).
Proof.
  intros He Hd. unfold MergeCertificateMismatchAnnotation at 1.
  rewrite (proj2 (String.eqb_neq _ _) He), (proj2 (String.eqb_neq _ _) Hd).
  intros (values & Hperm & ->) Hne.
  assert (Hvne : values <> []) by (intros ->; by apply Hne).
  assert (Hin : forall x, x ∈ values <-> x ∈ cert_values existing desired).
  { intros x. by rewrite Hperm, elem_of_elements. }
  assert (Hrec : map TrimSpace (Split (Join values "; ") ";"%char) = values).
  { apply Split_Join_records; [done|]. intros x Hx. by apply (cert_values_ok existing desired), Hin. }
  split; [by rewrite Hrec|].
  intros out'. unfold MergeCertificateMismatchAnnotation.
  rewrite (proj2 (String.eqb_neq _ _) Hne), (proj2 (String.eqb_neq _ _) Hd).
  intros (values' & Hperm' & ->).
  assert (Hsame : cert_values (Join values "; ") desired = cert_values existing desired).
  { apply set_eq. intros x. rewrite !cert_values_elem. split.
    - intros (Hx & y & [Hy|Hy] & <-); split; try done.
      + assert (Hv : TrimSpace y ∈ values) by (rewrite <- Hrec; by apply list_elem_of_fmap_2).
        apply Hin, cert_values_elem in Hv as (_ & z & Hz & Hzy). by exists z.
      + exists y. by split; [right|].
    - intros (Hx & y & [Hy|Hy] & <-); split; try done.
      + assert (Hv : TrimSpace y ∈ cert_values existing desired)
          by (apply cert_values_elem; split; [done|exists y; by split; [left|]]).
        apply Hin in Hv. rewrite <- Hrec in Hv. apply list_elem_of_fmap in Hv as (z & Hz & Hzs).
        exists z. split; [by left|done].
      + exists y. by split; [right|]. }
  rewrite Hsame in Hperm'.
  rewrite Split_Join_records.
  - done.
  - intros ->. apply Hvne. apply Permutation_nil_r. by rewrite Hperm, <- Hperm'.
  - intros x Hx. apply (cert_values_ok existing desired). by rewrite <- elem_of_elements, <- Hperm'.
Qed.

Section RemoveCert.
Variable drop : string -> bool.

Lemma rce_fold_filter (l acc : list string) :
  fold_left (fun remaining entry =>
      let trimmed := TrimSpace entry in
      if String.eqb trimmed "" then remaining
      else if drop trimmed then remaining
      else remaining ++ [trimmed]) l acc =
  acc ++ filter (fun t => t <> EmptyString /\ drop t = false) (map TrimSpace l).
Proof.
  revert acc. induction l as [|x l IH]; intros acc; simpl; [by rewrite app_nil_r|].
  rewrite IH. destruct (String.eqb_spec (TrimSpace x) "") as [Hx|Hx].
  - rewrite filter_cons_False by tauto. done.
  - destruct (drop (TrimSpace x)) eqn:Hk; simpl.
    + rewrite filter_cons_False by (intros [_ ?]; congruence). done.
    + rewrite filter_cons_True by tauto. by rewrite <- app_assoc.
Qed.
End RemoveCert.

Lemma RemoveCertMismatchEntries_eq certMismatch hostnameMappings :
  RemoveCertMismatchEntries certMismatch hostnameMappings =
  if String.eqb certMismatch "" then ""
  else match filter (fun t => t <> EmptyString /\
                 existsb (fun '(original, transformed) =>
                   HasPrefix t (original ++ "->" ++ transformed ++ ":"))
                   (map_to_list hostnameMappings) = false)
               (map TrimSpace (Split certMismatch ";"%char)) with
       | [] => ""
       | R => Join R "; "
       end.
Proof.
  unfold RemoveCertMismatchEntries.
  destruct (String.eqb certMismatch "") eqn:He; [done|].
  rewrite (rce_fold_filter (fun t => existsb (fun '(original, transformed) =>
                   HasPrefix t (original ++ "->" ++ transformed ++ ":"))
                   (map_to_list hostnameMappings))). rewrite app_nil_l.
  destruct (filter _ _) as [|r rs]; reflexivity.
Qed.

Lemma filter_all_true {A} (P : A -> Prop) `{!forall x, Decision (P x)} (l : list A) :
  (forall x, x ∈ l -> P x) -> filter P l = l.
Proof.
  induction l as [|x l IH]; intros Hall; [done|].
  rewrite filter_cons_True by (apply Hall; left). f_equal. apply IH.
  intros y Hy. apply Hall. by right.
Qed.

Lemma RemoveCertMismatchEntries_idem_aux certMismatch hostnameMappings :
  RemoveCertMismatchEntries (RemoveCertMismatchEntries certMismatch hostnameMappings)
    hostnameMappings =
  RemoveCertMismatchEntries certMismatch hostnameMappings.
Proof.
  rewrite (RemoveCertMismatchEntries_eq certMismatch).
  destruct (String.eqb certMismatch "") eqn:He; [done|].
  match goal with |- context [filter ?P (map TrimSpace (Split certMismatch _))] =>
    set (pred := P) end.
  pose proof (fun x Hx => proj1 (list_elem_of_filter pred (map TrimSpace (Split certMismatch ";"%char)) x) Hx) as Hmem.
  destruct (filter pred (map TrimSpace (Split certMismatch ";"%char))) as [|r rs] eqn:Hf;
    [done|].
  assert (Hok : forall x, x ∈ r :: rs ->
            pred x /\ TrimSpace x = x /\ has_char ";"%char x = false).
  { intros x Hx. destruct (Hmem x Hx) as [Hp Hx'].
    apply list_elem_of_fmap in Hx' as (y & -> & Hy). split; [done|].
    split; [apply TrimSpace_idem|]. apply has_char_TrimSpace. by eapply Split_fields_no_sep. }
  assert (Hne : Join (r :: rs) "; " <> EmptyString).
  { intros Hj. apply Join_empty_iff in Hj. apply Forall_cons in Hj as [Hr _].
    destruct (Hok r ltac:(left)) as [[Hr' _] _]. done. }
  rewrite RemoveCertMismatchEntries_eq.
  rewrite (proj2 (String.eqb_neq _ _) Hne).
  rewrite Split_Join_records by (done || (intros x Hx; by apply Hok)).
  rewrite filter_all_true by (intros x Hx; by apply Hok). reflexivity.
Qed.

Lemma elem_of_map_to_list_snd (m : gmap string Listener) l :
  l ∈ (map_to_list m).*2 <-> exists k, m !! k = Some l.
Proof.
  rewrite list_elem_of_fmap. split.
  - intros ([k v] & -> & Hkv). apply elem_of_map_to_list in Hkv. by exists k.
  - intros [k Hk]. exists (k, l). split; [done|]. by apply elem_of_map_to_list.
Qed.

(** Property X17.  After [MergeGatewaySpec] the Gateway's listener names are distinct;
    every listener comes from the existing or the desired Gateway; every
    desired listener is kept (when the desired names are distinct); and an
    existing listener whose name no desired listener takes is kept (when
    the existing names are distinct). *)
Theorem MergeGatewaySpec_listeners T existing desired result :
  MergeGatewaySpec T existing desired result ->
  NoDup (ln_name <$> gw_listeners result) /\
  (forall l, l ∈ gw_listeners result -> l ∈ gw_listeners existing \/ l ∈ gw_listeners desired) /\
  (NoDup (ln_name <$> gw_listeners desired) ->
     forall l, l ∈ gw_listeners desired -> l ∈ gw_listeners result) /\
  (NoDup (ln_name <$> gw_listeners existing) ->
     forall l, l ∈ gw_listeners existing -> ln_name l ∉ ln_name <$> gw_listeners desired ->
     l ∈ gw_listeners result).
Proof.
  intros (_ & _ & _ & _ & Hperm).
  set (m := merged_listeners existing desired) in *.
  assert (Hin : forall l, l ∈ gw_listeners result <-> exists k, m !! k = Some l).
  { intros l. rewrite Hperm. apply elem_of_map_to_list_snd. }
  split; [|split; [|split]].
  - rewrite Hperm, fmap_name_snd.
    + apply NoDup_fst_map_to_list.
    + intros k v Hkv. apply elem_of_map_to_list in Hkv. by eapply merged_listeners_names.
  - intros l Hl. apply Hin in Hl as [k Hk]. unfold m, merged_listeners in Hk.
    destruct (fold_ins_some _ _ _ _ Hk) as [[Hl _]|Hk']; [by right|].
    destruct (fold_ins_some _ _ _ _ Hk') as [[Hl _]|Hk'']; [by left|].
    by rewrite lookup_empty in Hk''.
  - intros Hnd l Hl. apply Hin. exists (ln_name l). unfold m, merged_listeners.
    by apply fold_ins_in.
  - intros Hnd l Hl Hnot. apply Hin. exists (ln_name l). unfold m, merged_listeners.
    rewrite fold_ins_notin.
    + by apply fold_ins_in.
    + intros x Hx Heq. apply Hnot. rewrite <- Heq. by apply list_elem_of_fmap_2.
Qed.

(** Property X18.  Removing the mismatch entries of the same hostname mappings twice is
    the same as removing them once. *)
Theorem RemoveCertMismatchEntries_idem certMismatch hostnameMappings :
  RemoveCertMismatchEntries (RemoveCertMismatchEntries certMismatch hostnameMappings)
    hostnameMappings =
  RemoveCertMismatchEntries certMismatch hostnameMappings.
Proof. apply RemoveCertMismatchEntries_idem_aux. Qed.

(** Property X19.  Removing the listeners of the same Ingress twice gives the Gateway
    obtained by removing them once, certificate-mismatch annotation
    included. *)
Theorem RemoveIngressListeners_idem T TransformHostname gateway ingress :
  RemoveIngressListeners T TransformHostname
    (RemoveIngressListeners T TransformHostname gateway ingress) ingress =
  RemoveIngressListeners T TransformHostname gateway ingress.
Proof.
  unfold RemoveIngressListeners. simpl. f_equal.
  - destruct (gw_annotations gateway !! MismatchedCertAnnotation T) as [cm|] eqn:Hc.
    + rewrite lookup_insert_eq, insert_insert_eq. by rewrite RemoveCertMismatchEntries_idem_aux.
    + by rewrite Hc.
  - apply filter_all_true. intros l Hl. by apply list_elem_of_filter in Hl as [? _].
Qed.

(* ================================================================== *)
(** * Further properties of the ReferenceGrant helpers                    *)
(* ================================================================== *)

Section ReferenceGrantProps.
Variable RGSpec : Type.
Variable RGName : string.
Variable CreateRG : string -> ReferenceGrant RGSpec.
Variable GetNamespacesWithTLS : list Ingress -> list string.
Variable IngressTLSCount : Ingress -> nat.
Variable GW : Type.
Variable c : GrantClient RGSpec GW.

Lemma ApplyReferenceGrant_events w ns rm r w' ev :
  ApplyReferenceGrant RGSpec RGName CreateRG GW c w ns rm = (r, w', ev) ->
  forall e, e ∈ ev ->
  match e with
  | GCreate _ g => g = CreateRG ns
  | GUpdate _ g => IsManagedByUs (rg_meta RGSpec g) = true /\
                   rg_spec RGSpec g = rg_spec RGSpec (CreateRG ns)
  | GDelete _ _ => False
  | GMetric _ _ ns' n => rm = true /\ ns' = ns /\ n = RGName
  end.
Proof.
  unfold ApplyReferenceGrant, metric.
  destruct (GetGrant RGSpec GW c w ns RGName) as [g|e0].
  - destruct (IsManagedByUs (rg_meta RGSpec g)) eqn:Hm; [|intros [= <- <- <-] e He; inversion He].
    destruct (UpdateGrant RGSpec GW c w _) as [w1|e1];
      intros [= <- <- <-] e He; [destruct rm|];
      repeat (apply elem_of_cons in He as [->|He]); try (by inversion He); simpl; auto.
  - destruct (IsNotFound e0); [|intros [= <- <- <-] e He; inversion He].
    destruct (CreateGrant RGSpec GW c w _) as [w1|e1];
      intros [= <- <- <-] e He; [destruct rm|];
      repeat (apply elem_of_cons in He as [->|He]); try (by inversion He); simpl; auto.
Qed.

Lemma apply_grants_events w nss rm r w' ev :
  apply_grants RGSpec RGName CreateRG GW c w nss rm = (r, w', ev) ->
  forall e, e ∈ ev ->
  match e with
  | GCreate _ g => exists ns, ns ∈ nss /\ g = CreateRG ns
  | GUpdate _ g => IsManagedByUs (rg_meta RGSpec g) = true /\
                   exists ns, ns ∈ nss /\ rg_spec RGSpec g = rg_spec RGSpec (CreateRG ns)
  | GDelete _ _ => False
  | GMetric _ _ ns n => rm = true /\ ns ∈ nss /\ n = RGName
  end.
Proof.
  revert w r w' ev. induction nss as [|ns rest IH]; intros w r w' ev; simpl.
  - intros [= <- <- <-] e He. inversion He.
  - destruct (ApplyReferenceGrant RGSpec RGName CreateRG GW c w ns rm) as [[r1 w1] ev1] eqn:Ha.
    pose proof (ApplyReferenceGrant_events _ _ _ _ _ _ Ha) as H1.
    assert (Hone : forall e, e ∈ ev1 -> match e with
      | GCreate _ g => exists ns0, ns0 ∈ ns :: rest /\ g = CreateRG ns0
      | GUpdate _ g => IsManagedByUs (rg_meta RGSpec g) = true /\
          exists ns0, ns0 ∈ ns :: rest /\ rg_spec RGSpec g = rg_spec RGSpec (CreateRG ns0)
      | GDelete _ _ => False
      | GMetric _ _ ns0 n => rm = true /\ ns0 ∈ ns :: rest /\ n = RGName
      end).
    { intros e He. specialize (H1 e He). destruct e; simpl in *.
      - exists ns. split; [left|done].
      - destruct H1. split; [done|]. exists ns. split; [left|done].
      - done.
      - destruct H1 as (? & -> & ?). split; [done|]. split; [left|done]. }
    destruct r1 as [u|e1].
    + destruct (apply_grants RGSpec RGName CreateRG GW c w1 rest rm) as [[r2 w2] ev2] eqn:Hr.
      intros [= <- <- <-] e He. apply elem_of_app in He as [He|He]; [by apply Hone|].
      specialize (IH _ _ _ _ Hr e He). destruct e; simpl in *.
      * destruct IH as (ns0 & ? & ?). exists ns0. split; [by right|done].
      * destruct IH as (? & ns0 & ? & ?). split; [done|]. exists ns0. split; [by right|done].
      * done.
      * destruct IH as (? & ? & ?). split; [done|]. split; [by right|done].
    + intros [= <- <- <-]. exact Hone.
Qed.

(** Property X20.  [EnsureReferenceGrants] never deletes a ReferenceGrant; it only
    creates the grant built for a namespace of [GetNamespacesWithTLS];
    it only updates grants managed by us, giving them the spec built for
    such a namespace; and it records a metric only when asked to, for such
    a namespace and the ReferenceGrant name. *)
Theorem EnsureReferenceGrants_events w ingresses rm r w' ev :
  EnsureReferenceGrants RGSpec RGName CreateRG GetNamespacesWithTLS GW c w ingresses rm
    = (r, w', ev) ->
  forall e, e ∈ ev ->
  let nss := GetNamespacesWithTLS ingresses in
  match e with
  | GCreate _ g => exists ns, ns ∈ nss /\ g = CreateRG ns
  | GUpdate _ g => IsManagedByUs (rg_meta RGSpec g) = true /\
                   exists ns, ns ∈ nss /\ rg_spec RGSpec g = rg_spec RGSpec (CreateRG ns)
  | GDelete _ _ => False
  | GMetric _ _ ns n => rm = true /\ ns ∈ nss /\ n = RGName
  end.
Proof. apply apply_grants_events. Qed.

(** Property X21.  [CleanupReferenceGrantIfNeeded] either issues no write and leaves the
    cluster unchanged, or issues exactly one delete: of the ReferenceGrant
    named [ReferenceGrantName] in the namespace, managed by us, after the
    namespace's Ingresses were listed and none of them has TLS. *)
Theorem CleanupReferenceGrantIfNeeded_deletes w ns r w' ev :
  CleanupReferenceGrantIfNeeded RGSpec RGName IngressTLSCount GW c w ns = (r, w', ev) ->
  (ev = [] /\ w' = w) \/
  exists g items,
    ev = [GDelete RGSpec g] /\
    ListIngressesIn RGSpec GW c w ns = Ok items /\
    (forall i, i ∈ items -> IngressTLSCount i = 0%nat) /\
    GetGrant RGSpec GW c w ns RGName = Ok g /\
    IsManagedByUs (rg_meta RGSpec g) = true.
Proof.
  unfold CleanupReferenceGrantIfNeeded.
  destruct (ListIngressesIn RGSpec GW c w ns) as [items|e0] eqn:Hl;
    [|intros [= <- <- <-]; by left].
  destruct (existsb _ items) eqn:Hx; [intros [= <- <- <-]; by left|].
  assert (Hz : forall i, i ∈ items -> IngressTLSCount i = 0%nat).
  { clear -Hx. induction items as [|j items IH]; intros i Hi; [inversion Hi|].
    simpl in Hx. apply orb_false_iff in Hx as [Hj Hx].
    apply elem_of_cons in Hi as [->|Hi]; [apply Nat.ltb_ge in Hj; lia|by apply IH]. }
  destruct (GetGrant RGSpec GW c w ns RGName) as [g|e1] eqn:Hg.
  - destruct (IsManagedByUs (rg_meta RGSpec g)) eqn:Hm; [|intros [= <- <- <-]; by left].
    intros Heq. right. exists g, items. split_and!; try done.
    destruct (DeleteGrant RGSpec GW c w g) as [w1|e2]; [by injection Heq|].
    destruct (IsNotFound e2); by injection Heq.
  - destruct (IsNotFound e1); intros [= <- <- <-]; by left.
Qed.

End ReferenceGrantProps.

(* ================================================================== *)
(** * Witnesses of the further properties                              *)
(* ================================================================== *)

(** Property X4 (witness). *)
Lemma SaveReconcileCacheSharded_panics_witness :
  SaveReconcileCacheSharded empty_store "c" (2^32) c7_entries = Err ErrPanic.
Proof.
  apply SaveReconcileCacheSharded_panics; [lia|reflexivity|].
  unfold c7_entries. apply map_non_empty_singleton.
Defined.

(** Property X6 (witness). *)
Lemma SaveReconcileCacheSharded_fails_iff_witness :
  exists e, SaveReconcileCacheSharded readonly_store "c" 16 c7_entries = Err e.
Proof.
  apply (SaveReconcileCacheSharded_fails_iff readonly_store "c" 16 c7_entries ltac:(lia)).
  exists 3. split; [unfold normalize_shard_count; simpl; lia|].
  right. unfold readonly_store. simpl. apply elem_of_singleton. vm_compute. reflexivity.
Defined.

(** Property X7 (witness). *)
Lemma restoreIngressState_reenables_witness :
  exists u, restoreIngressState sample_consts c1_ingress true true = Some u /\
    isDisabledIngress sample_consts u = false /\ shouldDeleteIngress sample_consts u = false.
Proof.
  eexists. split; [reflexivity|].
  destruct (restoreIngressState_reenables sample_consts c1_ingress true _ sample_consts_wf
              eq_refl) as (H1 & H2 & _).
  split; [exact H1|exact H2].
Defined.

(** Property X9 (witness). *)
Lemma restoreIngressState_restores_hostname_witness :
  exists u, restoreIngressState sample_consts dns_ingress false true = Some u /\
    ing_annotations u !! ExternalDNSHostnameAnnotation sample_consts = Some "web.example.com"%string.
Proof.
  eexists. split; [reflexivity|].
  destruct (restoreIngressState_restores_hostname sample_consts dns_ingress false _
              sample_consts_wf eq_refl) as (_ & _ & H & _).
  rewrite H. vm_compute. reflexivity.
Defined.

(** Property X10 (witness). *)
Lemma restoreIngressState_second_restore_drops_source_witness :
  exists u, restoreIngressState sample_consts dns_ingress false true = Some u /\
    needsExternalDNSRestore sample_consts u = true /\
    exists u', restoreIngressState sample_consts u false true = Some u' /\
      ing_annotations u' !! ExternalDNSIngressHostnameSource sample_consts = None.
Proof.
  eexists. split; [reflexivity|].
  destruct (restoreIngressState_second_restore_drops_source sample_consts dns_ingress _
              "defined-hosts-only" sample_consts_wf eq_refl ltac:(vm_compute; reflexivity)
              ltac:(discriminate)) as (_ & H2 & H3).
  split; [exact H2|exact H3].
Defined.

(** Property X11 (witness). *)
Lemma removeManagedHTTPRoutes_spec_witness :
  exists w' tr err,
    removeManagedHTTPRoutes string string sample_route_managed nat
      (sample_cluster [c1_ingress]) 0%nat c1_ingress = (w', tr, err) /\
    exists l, tr = ADeleteRoute string <$> l /\
      l = filter (fun r => sample_route_managed r "default" "web" = true)
            ["web-managed"; "web-other"]%string.
Proof.
  do 3 eexists. split; [reflexivity|].
  destruct (proj2 (removeManagedHTTPRoutes_spec string string sample_route_managed nat
              (sample_cluster [c1_ingress]) 0%nat c1_ingress _ _ _ eq_refl)
              ["web-managed"; "web-other"]%string eq_refl) as (l & Htr & _ & Hall).
  exists l. split; [exact Htr|]. apply Hall. reflexivity.
Defined.

(** Property X12 (witness). *)
Lemma runReenabler_restore_mode_writes_witness :
  exists r w' tr, sample_run [c1_ingress; plain_ingress] true true true false = (r, w', tr) /\
    ADeleteRoute string "web-managed" ∈ tr /\
    exists ing, ing ∈ [c1_ingress; plain_ingress] /\ isDisabledIngress sample_consts ing = true /\
      sample_route_managed "web-managed" (ing_namespace ing) (ing_name ing) = true.
Proof.
  do 3 eexists. split; [reflexivity|].
  assert (Hin : ADeleteRoute string "web-managed" ∈
                (sample_run [c1_ingress; plain_ingress] true true true false).2)
    by (vm_compute; right; left).
  split; [exact Hin|].
  destruct (runReenabler_restore_mode_writes sample_consts string string sample_route_managed
              sample_gateway_managed sample_snippets_filter_name nat
              (sample_cluster [c1_ingress; plain_ingress]) true true true 0%nat ""
              _ _ _ [c1_ingress; plain_ingress] eq_refl eq_refl) as (_ & _ & H3 & _).
  destruct (H3 _ Hin) as [_ H]. exact H.
Defined.

(** Property X13 (witness). *)
Lemma runReenabler_error_no_writes_witness :
  exists e w' tr, sample_run [c1_ingress; plain_ingress] true true true true = (Err e, w', tr) /\
    w' = 0%nat /\ tr = [].
Proof.
  do 3 eexists. split; [reflexivity|].
  exact (runReenabler_error_no_writes sample_consts string string sample_route_managed
           sample_gateway_managed sample_snippets_filter_name nat
           (sample_cluster [c1_ingress; plain_ingress]) true true true true 0%nat "" _ _ _ eq_refl).
Defined.

(** Property X14 (witness). *)
Lemma runReenabler_delete_mode_witness :
  exists r w' tr, sample_run [c1_ingress] false false false true = (r, w', tr) /\
    r = Ok tt /\ shouldDeleteIngress sample_consts c1_ingress = true /\
    hasManagedResources string string sample_route_managed sample_gateway_managed
      {| ListGateways := ListGatewaysIn string string nat (sample_cluster [c1_ingress]) 0%nat |}
      (Some {| GetHTTPRoutesWithPrefix :=
                 RoutesWithPrefix string string nat (sample_cluster [c1_ingress]) 0%nat |})
      c1_ingress = Ok (true, true).
Proof.
  do 3 eexists. split; [reflexivity|]. split; [reflexivity|].
  destruct (runReenabler_delete_mode sample_consts string string sample_route_managed
              sample_gateway_managed sample_snippets_filter_name nat
              (sample_cluster [c1_ingress]) false false false 0%nat ""
              _ _ _ [c1_ingress] eq_refl eq_refl) as [_ H].
  apply H; [reflexivity|left].
Defined.

(** Property X15 (witness). *)
Lemma MergeAnnotationValues_reapply_witness :
  MergeAnnotationValues (MergeAnnotationValues "a, b" "b,c") "b,c" =
  MergeAnnotationValues "a, b" "b,c".
Proof.
  apply MergeAnnotationValues_reapply; [discriminate|discriminate|].
  vm_compute. discriminate.
Defined.

(** Property X16 (witness). *)
Lemma MergeCertificateMismatchAnnotation_records_witness :
  map TrimSpace (Split (Join (elements (cert_values "a->x:1" "b->y:2; a->x:1")) "; ") ";"%char)
  ≡ₚ elements (cert_values "a->x:1" "b->y:2; a->x:1").
Proof.
  refine (proj1 (MergeCertificateMismatchAnnotation_records "a->x:1" "b->y:2; a->x:1"
           (Join (elements (cert_values "a->x:1" "b->y:2; a->x:1")) "; ") _ _ _ _)).
  - discriminate.
  - discriminate.
  - unfold MergeCertificateMismatchAnnotation. simpl.
    exists (elements (cert_values "a->x:1" "b->y:2; a->x:1")). split; reflexivity.
  - vm_compute. discriminate.
Defined.

(** Property X17 (witness). *)
Lemma MergeGatewaySpec_listeners_witness :
  NoDup (ln_name <$> gw_listeners (merge_outcome (mk_gateway [mk_listener "b.example.com"])
                                                 (mk_gateway [mk_listener "a.example.com"]))) /\
  mk_listener "a.example.com" ∈
    gw_listeners (merge_outcome (mk_gateway [mk_listener "b.example.com"])
                                (mk_gateway [mk_listener "a.example.com"])).
Proof.
  destruct (MergeGatewaySpec_listeners sample_translator
              (mk_gateway [mk_listener "b.example.com"]) (mk_gateway [mk_listener "a.example.com"])
              (merge_outcome (mk_gateway [mk_listener "b.example.com"])
                             (mk_gateway [mk_listener "a.example.com"])))
    as (Hnd & _ & Hd & _).
  - split; [intros k _; reflexivity|]. split.
    { intros k v Hk. simpl in Hk. by rewrite lookup_empty in Hk. }
    split; [reflexivity|]. split; reflexivity.
  - split; [exact Hnd|]. apply Hd; [apply NoDup_singleton|left].
Defined.

(** Property X20 (witness). *)
Lemma EnsureReferenceGrants_events_witness :
  IsManagedByUs (rg_meta string (sample_grant "a" true)) = true /\
  exists ns, ns ∈ ["a"; "b"; "c"]%string /\
    rg_spec string (sample_grant "a" true) = rg_spec string (sample_grant ns true).
Proof.
  refine (EnsureReferenceGrants_events string "doperator" (fun ns => sample_grant ns true)
           (fun _ => ["a"; "b"; "c"]%string) _ sample_grant_client sample_grants [] true
           (Ok tt) (<["b"%string := sample_grant "b" true]> sample_grants)
           [GUpdate string (sample_grant "a" true); GMetric string "update" "a" "doperator";
            GCreate string (sample_grant "b" true); GMetric string "create" "b" "doperator"]
           _ (GUpdate string (sample_grant "a" true)) _).
  - vm_compute. reflexivity.
  - left.
Defined.

(** Property X21 (witness). *)
Lemma CleanupReferenceGrantIfNeeded_deletes_witness :
  exists r w' ev,
    CleanupReferenceGrantIfNeeded string "doperator" (fun _ => 0%nat) _ sample_grant_client
      sample_grants "a" = (r, w', ev) /\
    exists g items, ev = [GDelete string g] /\ GetGrant string _ sample_grant_client sample_grants "a"
      "doperator" = Ok g /\ IsManagedByUs (rg_meta string g) = true /\
      ListIngressesIn string _ sample_grant_client sample_grants "a" = Ok items.
Proof.
  do 3 eexists. split; [reflexivity|].
  destruct (CleanupReferenceGrantIfNeeded_deletes string "doperator" (fun _ => 0%nat) _
              sample_grant_client sample_grants "a" _ _ _ eq_refl)
    as [[Hev _]|(g & items & Hev & Hl & _ & Hg & Hm)]; [discriminate Hev|].
  exists g, items. done.
Defined.
